(** * Hive campaign-intelligence demo: the streaming client

    A shallow embedding of the TypeScript client of the repository
    (lib/api.ts, components/Chat.tsx, components/Message.tsx,
    components/AgentPipeline.tsx, components/CampaignPreview.tsx) and the
    properties of its event reducer, frame decoder and renderers.

    Conventions of the embedding
    - a JavaScript string is the list of its UTF-16 code units, so that
      [length] is JavaScript's [.length];
    - React state is passed explicitly: a state updater [setX (prev => f prev)]
      is the function [f] applied to the current state, in program order;
    - the values produced by [crypto.randomUUID], [fetch] and [JSON.parse]
      are inputs of the model;
    - integer-valued JavaScript numbers are integers of [Z]. *)

From Stdlib Require Import NArith ZArith QArith Lia Ascii String.
From stdpp Require Import base option list gmap.

Local Open Scope nat_scope.

(** ** JavaScript strings *)

Module Js.

(** A string is its sequence of UTF-16 code units. *)
Abbreviation jsstring := (list N).

(** An ASCII literal as a JavaScript string. *)
Definition js (s : string) : jsstring :=
  map N_of_ascii (list_ascii_of_string s).

(** [WhiteSpace] and [LineTerminator] code points of ECMAScript, the
    characters [String.prototype.trim] strips. *)
Definition is_space (c : N) : bool :=
  ((9 <=? c) && (c <=? 13) || (c =? 32) || (c =? 160) || (c =? 5760)
   || (8192 <=? c) && (c <=? 8202) || (c =? 8232) || (c =? 8233)
   || (c =? 8239) || (c =? 8287) || (c =? 12288) || (c =? 65279))%N.

Fixpoint trimStart (s : jsstring) : jsstring :=
  match s with
  | c :: s' => if is_space c then trimStart s' else s
  | [] => []
  end.

Definition trimEnd (s : jsstring) : jsstring := rev (trimStart (rev s)).

(** [s.trim()] *)
Definition trim (s : jsstring) : jsstring := trimEnd (trimStart s).

(** [s.startsWith(p)] *)
Fixpoint startsWith (p s : jsstring) : bool :=
  match p, s with
  | [], _ => true
  | a :: p', b :: s' => (a =? b)%N && startsWith p' s'
  | _ :: _, [] => false
  end.

(** [s.slice(n)] for a non-negative [n] *)
Definition slice_from (n : nat) (s : jsstring) : jsstring := drop n s.

(** [parts.join(sep)] *)
Fixpoint join (sep : jsstring) (parts : list jsstring) : jsstring :=
  match parts with
  | [] => []
  | [p] => p
  | p :: rest => p ++ sep ++ join sep rest
  end.

(** JavaScript truthiness of a string: [!s] holds of the empty string only. *)
Definition falsy (s : jsstring) : bool :=
  match s with [] => true | _ :: _ => false end.

Definition LF : N := 10%N.

Definition cons_head (c : N) (parts : list jsstring) : list jsstring :=
  match parts with
  | p :: ps => (c :: p) :: ps
  | [] => [[c]]
  end.

(** [s.split("\n\n")]: the separator is searched from the left, matches do
    not overlap, and the result always has at least one part. *)
Fixpoint split_blank (s : jsstring) : list jsstring :=
  match s with
  | [] => [[]]
  | c :: s' =>
      match s' with
      | d :: s'' =>
          if ((c =? LF) && (d =? LF))%N then [] :: split_blank s''
          else cons_head c (split_blank s')
      | [] => [[c]]
      end
  end.

End Js.

Import Js.

(** ** lib/api.ts: the types of the wire protocol and of the transcript *)

Module Api.

Inductive Role := user | assistant.

Record ChatMessage := { cm_role : Role; cm_content : jsstring }.

Record Fan := {
  fan_id : jsstring;
  first_name : jsstring;
  last_name : jsstring;
  city : jsstring;
  state : jsstring;
  genres : list jsstring;
  last_purchase_date : jsstring;
  total_spent : Q;
  email_open_rate : Q }.

Record AudienceResult := {
  count : Z;
  ar_segment_id : jsstring;
  avg_spent : Q;
  open_rate : Q;
  fans : list Fan }.

Record Email := { subject : jsstring; preview_text : jsstring; email_body : jsstring }.
Record Sms := { body : jsstring }.
Record CampaignDraft := { email : Email; sms : Sms }.

Record ScheduleResult := {
  campaign_id : jsstring;
  sr_segment_id : jsstring;
  event_name : jsstring;
  audience_size : Z;
  send_at : jsstring;
  sr_status : jsstring }.

(** The [status] of an [agent_step] event. *)
Inductive StepStatus := step_running | step_done | step_error.

(** All SSE event shapes. *)
Inductive SSEEvent :=
| ev_agent_step (node : jsstring) (status : StepStatus)
| ev_audience_result (data : AudienceResult)
| ev_campaign_draft (data : CampaignDraft)
| ev_scheduled (data : ScheduleResult)
| ev_token (content : jsstring)
| ev_done
| ev_error (message : jsstring).

(** Message content that the Chat component renders. *)
Inductive MessageContent :=
| kind_text (text : jsstring)
| kind_audience (data : AudienceResult)
| kind_campaign (data : CampaignDraft)
| kind_scheduled (data : ScheduleResult).

Record Message := { id : jsstring; role : Role; contents : list MessageContent }.

(** A thrown value: an [Error] with its [message], or anything else. *)
Inductive Thrown :=
| thrown_Error (message : jsstring)
| thrown_other.

(** A response of [fetch]: the promise rejects, or it resolves with
    [response.ok], the decimal text of [response.status], the decoded text
    of each chunk the body reader delivers, and how reading ends ([None]:
    the reader reports [done]; [Some e]: a read rejects with [e]). *)
Inductive Response :=
| fetch_rejects (err : Thrown)
| http_status (ok : bool) (status : jsstring)
    (chunks : list jsstring) (read_error : option Thrown).

(** What the consumer of the generator observes: the events yielded, and
    the exception that ends the iteration, if any. *)
Record Stream := { yielded : list SSEEvent; raised : option Thrown }.

Section StreamChat.

(** [JSON.parse], with [None] for a thrown [SyntaxError].  The source casts
    the value parsed to [SSEEvent] without a check; the model has the parser
    return events of that type. *)
Variable JSON_parse : jsstring -> option SSEEvent.

(** The body of the inner [for (const part of parts)] loop: the events
    one part yields (none or one). *)
Definition decode_part (part : jsstring) : list SSEEvent :=
  let line := trim part in
  if negb (startsWith (js "data: ") line) then []
  else
    let json := slice_from 6 line in
    match JSON_parse json with
    | Some event => [event]
    | None => []          (* skip malformed events *)
    end.

(** [parts.pop() ?? ""] and the parts left in the array. *)
Definition pop_last (parts : list jsstring) : list jsstring * jsstring :=
  match last parts with
  | Some p => (removelast parts, p)
  | None => ([], [])
  end.

(** The [while (true)] loop of [streamChat] over the chunks the reader
    delivers; the text left in [buffer] when the reader is done is
    dropped. *)
Fixpoint read_loop (buffer : jsstring) (chunks : list jsstring) : list SSEEvent :=
  match chunks with
  | [] => []
  | value :: chunks' =>
      let buffer := buffer ++ value in
      let '(parts, buffer) := pop_last (split_blank buffer) in
      flat_map decode_part parts ++ read_loop buffer chunks'
  end.

Definition streamChat (response : Response) : Stream :=
  match response with
  | fetch_rejects err => {| yielded := []; raised := Some err |}
  | http_status ok status chunks read_error =>
      if negb ok then
        {| yielded := [];
           raised := Some (thrown_Error (js "API error: " ++ status)) |}
      else {| yielded := read_loop [] chunks; raised := read_error |}
  end.

End StreamChat.

End Api.

Import Api.

(** ** components/Chat.tsx: the event reducer of [send] *)

Module Chat.

Inductive PhaseStatus := phase_idle | phase_running | phase_done | phase_error.

Definition phase_of (status : StepStatus) : PhaseStatus :=
  match status with
  | step_running => phase_running
  | step_done => phase_done
  | step_error => phase_error
  end.

(** The React state of the component. *)
Record ChatState := {
  messages : list Message;
  input : jsstring;
  isStreaming : bool;
  phases : gmap jsstring PhaseStatus }.

Definition setMessages (f : list Message -> list Message) (st : ChatState) : ChatState :=
  {| messages := f (messages st); input := input st;
     isStreaming := isStreaming st; phases := phases st |}.

Definition setInput (v : jsstring) (st : ChatState) : ChatState :=
  {| messages := messages st; input := v;
     isStreaming := isStreaming st; phases := phases st |}.

Definition setIsStreaming (v : bool) (st : ChatState) : ChatState :=
  {| messages := messages st; input := input st;
     isStreaming := v; phases := phases st |}.

Definition setPhases (f : gmap jsstring PhaseStatus -> gmap jsstring PhaseStatus)
    (st : ChatState) : ChatState :=
  {| messages := messages st; input := input st;
     isStreaming := isStreaming st; phases := f (phases st) |}.

(** [setPhases((prev) => ({ ...prev, [node]: status }))] *)
Definition updatePhase (node : jsstring) (status : PhaseStatus) : ChatState -> ChatState :=
  setPhases (fun prev => <[node := status]> prev).

(** [c.kind === "text"] *)
Definition is_text (c : MessageContent) : bool :=
  match c with
  | kind_text _ => true
  | _ => false
  end.

(** [(c as { kind: "text"; text: string }).text]; the cast is applied to
    text blocks only. *)
Definition text_field (c : MessageContent) : jsstring :=
  match c with
  | kind_text text => text
  | _ => []
  end.

(** One entry of the history built for the API. *)
Definition history_entry (m : Message) : ChatMessage :=
  {| cm_role := role m;
     cm_content := join [LF] (map text_field (List.filter is_text (contents m))) |}.

(** The warning sign, its variation selector and a space. *)
Definition WARN : jsstring := [9888; 65039; 32]%N.

Definition connection_error (err : Thrown) : jsstring :=
  WARN ++ js "Connection error: " ++
  match err with
  | thrown_Error message => message
  | thrown_other => js "Unknown error"
  end.

(** What one call of [send] holds besides the React state: the text
    accumulated and not yet committed. *)
Record Turn := { chat : ChatState; textBuffer : jsstring }.

Section Send.

(** The identifier [crypto.randomUUID()] gave the assistant message. *)
Variable assistantId : jsstring.

(** The buffer length above which a token triggers a flush. *)
Variable threshold : nat.

(** The new contents of the assistant message when [snapshot] is
    flushed. *)
Definition flush_into (snapshot : jsstring) (contents : list MessageContent)
    : list MessageContent :=
  match last contents with
  | Some (kind_text text) =>
      removelast contents ++ [kind_text (text ++ snapshot)]
  | _ => contents ++ [kind_text snapshot]
  end.

(** [prev.map((m) => m.id === assistantId ? { ...m, contents: f(m.contents) } : m)] *)
Definition update_assistant (f : list MessageContent -> list MessageContent)
    (prev : list Message) : list Message :=
  map (fun m =>
         if decide (id m = assistantId)
         then {| id := id m; role := role m; contents := f (contents m) |}
         else m) prev.

Definition flushText (t : Turn) : Turn :=
  if falsy (textBuffer t) then t
  else
    let snapshot := textBuffer t in
    {| chat := setMessages (update_assistant (flush_into snapshot)) (chat t);
       textBuffer := [] |}.

Definition appendContent (content : MessageContent) (t : Turn) : Turn :=
  let t := flushText t in
  {| chat := setMessages (update_assistant (fun contents => contents ++ [content])) (chat t);
     textBuffer := textBuffer t |}.

(** The body of the [for await] loop. *)
Definition on_event (t : Turn) (event : SSEEvent) : Turn :=
  match event with
  | ev_agent_step node status =>
      {| chat := updatePhase node (phase_of status) (chat t);
         textBuffer := textBuffer t |}
  | ev_token content =>
      let t := {| chat := chat t; textBuffer := textBuffer t ++ content |} in
      if threshold <? length (textBuffer t) then flushText t else t
  | ev_audience_result data => appendContent (kind_audience data) (flushText t)
  | ev_campaign_draft data => appendContent (kind_campaign data) (flushText t)
  | ev_scheduled data => appendContent (kind_scheduled data) (flushText t)
  | ev_done => flushText t
  | ev_error message => appendContent (kind_text (WARN ++ message)) (flushText t)
  end.

(** The [try] block over the events the generator yields, then the
    [catch] block when the iteration ends by an exception. *)
Definition consume (stream : Stream) (t : Turn) : Turn :=
  let t := fold_left on_event (yielded stream) t in
  match raised stream with
  | None => t
  | Some err => appendContent (kind_text (connection_error err)) (flushText t)
  end.

(** [send(text)]: the state when the call has completed, and the history
    posted to the API, if a request was made.  [userId] is the
    identifier drawn for the user message and [network] stands for
    [streamChat]. *)
Definition send_with (network : list ChatMessage -> Stream) (userId : jsstring)
    (text : jsstring) (st : ChatState) : ChatState * option (list ChatMessage) :=
  if falsy (trim text) || isStreaming st then (st, None)
  else
    let userMessage :=
      {| id := userId; role := user; contents := [kind_text (trim text)] |} in
    let st1 := setMessages (fun prev => prev ++ [userMessage]) st in
    let st1 := setInput [] st1 in
    let st1 := setIsStreaming true st1 in
    let st1 := setPhases (fun _ => ∅) st1 in
    let history := map history_entry (messages st ++ [userMessage]) in
    let assistantMessage :=
      {| id := assistantId; role := assistant; contents := [] |} in
    let st2 := setMessages (fun prev => prev ++ [assistantMessage]) st1 in
    let t := consume (network history) {| chat := st2; textBuffer := [] |} in
    (setIsStreaming false (chat t), Some history).

End Send.

(** The threshold written in [send]: a flush when the buffer is longer
    than 50. *)
Definition FLUSH_CHARS : nat := 50.

Definition send (assistantId : jsstring) := send_with assistantId FLUSH_CHARS.

End Chat.

Import Chat.

(** ** components/AgentPipeline.tsx *)

Module AgentPipeline.

Record Phase := { phase_id : jsstring; label : jsstring; icon : jsstring }.

Definition PHASES : list Phase :=
  [ {| phase_id := js "analyzing"; label := js "Analyzing";
       icon := [55358; 56800]%N |};
    {| phase_id := js "audience_research"; label := js "CRM Query";
       icon := [55357; 56589]%N |};
    {| phase_id := js "strategy"; label := js "Strategy";
       icon := [55357; 56522]%N |};
    {| phase_id := js "copy_writing"; label := js "Writing Copy";
       icon := [9997; 65039]%N |};
    {| phase_id := js "scheduling"; label := js "Scheduling";
       icon := [55357; 56517]%N |} ].

Definition is_idle (s : PhaseStatus) : bool :=
  match s with phase_idle => true | _ => false end.

(** [Object.values(activePhases).some((s) => s !== "idle")] *)
Definition hasActivity (activePhases : gmap jsstring PhaseStatus) : bool :=
  existsb (fun kv => negb (is_idle (snd kv))) (map_to_list activePhases).

(** [activePhases[phase.id] ?? "idle"] *)
Definition status_of (activePhases : gmap jsstring PhaseStatus) (phase : Phase)
    : PhaseStatus :=
  default phase_idle (activePhases !! phase_id phase).

(** The component renders nothing, or one chip per phase, styled by the
    status found for it. *)
Definition AgentPipeline (activePhases : gmap jsstring PhaseStatus)
    : option (list (Phase * PhaseStatus)) :=
  if negb (hasActivity activePhases) then None
  else Some (map (fun phase => (phase, status_of activePhases phase)) PHASES).

End AgentPipeline.

(** ** components/CampaignPreview.tsx *)

Module CampaignPreview.

Inductive Tab := tab_email | tab_sms.

Record EmailView := {
  shown_subject : jsstring;
  shown_preview : jsstring;
  shown_body : jsstring }.

Definition EmailPreview (e : Email) : EmailView :=
  {| shown_subject := subject e;
     shown_preview := preview_text e;
     shown_body := email_body e |}.

(** The phone mock-up: the text of the message bubble, the number shown
    before [/160 chars] and the colour class of that counter. *)
Record SmsView := {
  bubble : jsstring;
  counter : nat;
  counter_class : jsstring }.

Definition SMSPreview (m : Sms) : SmsView :=
  let charCount := length (body m) in
  let isOver := 160 <? charCount in
  {| bubble := body m;
     counter := charCount;
     counter_class := if isOver then js "text-red-400" else js "text-gray-600" |}.

Inductive Pane := pane_email (v : EmailView) | pane_sms (v : SmsView).

Definition CampaignPreview (data : CampaignDraft) (tab : Tab) : Pane :=
  match tab with
  | tab_email => pane_email (EmailPreview (email data))
  | tab_sms => pane_sms (SMSPreview (sms data))
  end.

End CampaignPreview.

(** ** components/Message.tsx *)

Module Message.

(** What [MessageBubble] returns for one content block. *)
Inductive Element :=
| el_text (isUser : bool) (markdown : bool) (text : jsstring)
| el_AudienceCard (data : AudienceResult)
| el_CampaignPreview (data : CampaignDraft)
| el_scheduled (data : ScheduleResult).

Section Bubble.

(** Whether the text of the agent goes through [ReactMarkdown]: the
    repository has the component without it and with it. *)
Variable markdown : bool.

(** The callback of [message.contents.map]; [None] is [null]. *)
Definition render_content (isUser : bool) (content : MessageContent)
    : option Element :=
  match content with
  | kind_text text => Some (el_text isUser (negb isUser && markdown) text)
  | kind_audience data =>
      if (count data =? 0)%Z then None else Some (el_AudienceCard data)
  | kind_campaign data => Some (el_CampaignPreview data)
  | kind_scheduled data => Some (el_scheduled data)
  end.

Definition MessageBubble_with (message : Api.Message) : list (option Element) :=
  let isUser := match role message with user => true | assistant => false end in
  map (render_content isUser) (contents message).

End Bubble.

(** Message.tsx as plain text, and its revision with Markdown. *)
Definition MessageBubble := MessageBubble_with false.
Definition MessageBubble_markdown := MessageBubble_with true.

End Message.

(** ** Notions of the specification *)

Module Spec.

(** Committing a pending text: nothing when there is none. *)
Definition commit_text (pending : jsstring) (contents : list MessageContent)
    : list MessageContent :=
  match pending with
  | [] => contents
  | _ :: _ => flush_into pending contents
  end.

(** The content block an event stands for in the transcript. *)
Definition block_of (event : SSEEvent) : list MessageContent :=
  match event with
  | ev_agent_step _ _ => []
  | ev_token [] => []
  | ev_token content => [kind_text content]
  | ev_audience_result data => [kind_audience data]
  | ev_campaign_draft data => [kind_campaign data]
  | ev_scheduled data => [kind_scheduled data]
  | ev_done => []
  | ev_error message => [kind_text (WARN ++ message)]
  end.

(** The transcript of the reference reducer, on the contents alone. *)
Definition commit_event (contents : list MessageContent) (event : SSEEvent)
    : list MessageContent :=
  match event with
  | ev_token content => commit_text content contents
  | _ => contents ++ block_of event
  end.

Definition transcript (contents : list MessageContent) (events : list SSEEvent)
    : list MessageContent :=
  fold_left commit_event events contents.

(** The reference reducer keeps no buffer: a phase event updates the
    projection, a token is committed to the message as soon as it arrives
    (merged into a preceding text block, or as a new text block), a
    structured result or an error message is appended as a block. *)
Definition reference_on_event (assistantId : jsstring) (st : ChatState)
    (event : SSEEvent) : ChatState :=
  match event with
  | ev_agent_step node status => updatePhase node (phase_of status) st
  | _ =>
      setMessages
        (update_assistant assistantId (fun contents => commit_event contents event)) st
  end.

(** Adjacent text blocks read as one text. *)
Definition join_text (c : MessageContent) (rest : list MessageContent)
    : list MessageContent :=
  match c, rest with
  | kind_text a, kind_text b :: rest' => kind_text (a ++ b) :: rest'
  | _, _ => c :: rest
  end.

Fixpoint merge_texts (contents : list MessageContent) : list MessageContent :=
  match contents with
  | [] => []
  | c :: rest => join_text c (merge_texts rest)
  end.

(** Terminal events, and events that carry a structured result. *)
Definition is_terminal (event : SSEEvent) : bool :=
  match event with
  | ev_done | ev_error _ => true
  | _ => false
  end.

Definition is_structured (event : SSEEvent) : bool :=
  match event with
  | ev_audience_result _ | ev_campaign_draft _ | ev_scheduled _ => true
  | _ => false
  end.

Definition ends_with_terminal (events : list SSEEvent) : bool :=
  match last events with
  | Some event => is_terminal event
  | None => false
  end.

(** The text a sequence of events carries in its tokens. *)
Definition token_text (event : SSEEvent) : jsstring :=
  match event with
  | ev_token content => content
  | _ => []
  end.

Definition span_text (events : list SSEEvent) : jsstring :=
  concat (map token_text events).

(** The structured block a structured event carries. *)
Definition structured_block (event : SSEEvent) : option MessageContent :=
  match event with
  | ev_audience_result data => Some (kind_audience data)
  | ev_campaign_draft data => Some (kind_campaign data)
  | ev_scheduled data => Some (kind_scheduled data)
  | _ => None
  end.

(** The state a turn stands for: its React state once the pending text is
    committed. *)
Definition view (assistantId : jsstring) (t : Turn) : ChatState :=
  chat (flushText assistantId t).

(** The node-to-phase mapping the specification names. *)
Definition phase_of_node (node : jsstring) : option jsstring :=
  if decide (node = js "analyzing") then Some (js "analyzing")
  else if decide (node = js "query_crm") then Some (js "audience_research")
  else if decide (node = js "generate_campaign_copy") then Some (js "copy_writing")
  else if decide (node = js "schedule_campaign") then Some (js "scheduling")
  else None.

(** Frames on the wire.  A frame holds no blank line, also not together
    with the line feed that follows it; the stream is the frames, each
    followed by a blank line. *)
Fixpoint has_blank_line (s : jsstring) : bool :=
  match s with
  | c :: s' =>
      match s' with
      | d :: _ => ((c =? LF) && (d =? LF))%N || has_blank_line s'
      | [] => false
      end
  | [] => false
  end.

Definition is_frame (f : jsstring) : bool := negb (has_blank_line (f ++ [LF])).

Definition wire (frames : list jsstring) : jsstring :=
  flat_map (fun f => f ++ [LF; LF]) frames.

Section Frames.

Variable JSON_parse : jsstring -> option SSEEvent.

(** A valid frame carries, up to surrounding white space, the prefix
    [data: ] and a payload that parses; any other frame is corrupt. *)
Definition valid_frame (f : jsstring) : Prop :=
  exists json event, trim f = js "data: " ++ json /\ JSON_parse json = Some event.

Definition corrupt_frame (f : jsstring) : Prop := ~ valid_frame f.

End Frames.

(** The texts of the text blocks of a message, in order. *)
Fixpoint texts (contents : list MessageContent) : list jsstring :=
  match contents with
  | [] => []
  | kind_text text :: rest => text :: texts rest
  | _ :: rest => texts rest
  end.

(** The phase projection a sequence of events builds. *)
Definition record_phase (projection : gmap jsstring PhaseStatus) (event : SSEEvent)
    : gmap jsstring PhaseStatus :=
  match event with
  | ev_agent_step node status => <[node := phase_of status]> projection
  | _ => projection
  end.

Definition phase_projection (events : list SSEEvent) : gmap jsstring PhaseStatus :=
  fold_left record_phase events ∅.

(** Fresh identifiers: no message of the list carries [i]. *)
Definition fresh (i : jsstring) (msgs : list Message) : Prop :=
  Forall (fun m => id m <> i) msgs.

End Spec.

Import Spec.

(** ** Sample data *)

Module Sample.

Definition quoted (s : string) : jsstring := [34%N] ++ js s ++ [34%N].

(** The frames [{"type":"done"}] and [{"type":"token","content":"Hi"}]. *)
Definition json_done : jsstring :=
  js "{" ++ quoted "type" ++ js ":" ++ quoted "done" ++ js "}".

Definition json_token_hi : jsstring :=
  js "{" ++ quoted "type" ++ js ":" ++ quoted "token" ++ js ","
     ++ quoted "content" ++ js ":" ++ quoted "Hi" ++ js "}".

(** A parser that knows these two payloads only. *)
Definition parse (s : jsstring) : option SSEEvent :=
  if decide (s = json_done) then Some ev_done
  else if decide (s = json_token_hi) then Some (ev_token (js "Hi"))
  else None.

Definition frame_done : jsstring := js "data: " ++ json_done.
Definition frame_token_hi : jsstring := js "data: " ++ json_token_hi.
Definition frame_garbage : jsstring := js "data: {oops".

Definition audience (n : Z) : AudienceResult :=
  {| count := n; ar_segment_id := js "seg_abc123"; avg_spent := 287.5%Q;
     open_rate := 0.64%Q; fans := [] |}.

Definition draft (sms_body : jsstring) : CampaignDraft :=
  {| email := {| subject := js "Jazz night"; preview_text := js "Tickets";
                 email_body := js "See you there" |};
     sms := {| body := sms_body |} |}.

Definition empty_state : ChatState :=
  {| messages := []; input := []; isStreaming := false; phases := ∅ |}.

Definition assistant_message (cs : list MessageContent) : Api.Message :=
  {| id := js "a1"; role := assistant; contents := cs |}.

Definition streaming_state (cs : list MessageContent) : ChatState :=
  {| messages := [ {| id := js "u1"; role := user;
                      contents := [kind_text (js "Find jazz fans in Chicago")] |};
                   assistant_message cs ];
     input := []; isStreaming := true; phases := ∅ |}.

End Sample.

(** ** components/Chat.tsx: the form and the view *)

Module ChatForm.

(** [handleSubmit]: [send(input)]. *)
Definition handleSubmit (assistantId : jsstring) (network : list ChatMessage -> Stream)
    (userId : jsstring) (st : ChatState) : ChatState * option (list ChatMessage) :=
  send assistantId network userId (input st) st.

(** [disabled={isStreaming || !input.trim()}] of the submit button. *)
Definition submit_disabled (st : ChatState) : bool :=
  isStreaming st || falsy (trim (input st)).

(** [messages.length === 0 && <EmptyState ... />] *)
Definition shows_EmptyState (st : ChatState) : bool :=
  length (messages st) =? 0.

End ChatForm.

(** ** The reducer on the contents of one message *)

Module Contents.

(** The loop body of [send], on the contents of a message that carries the
    assistant identifier and on the pending text. *)
Definition batch_step (k : nat) (p : list MessageContent * jsstring) (event : SSEEvent)
    : list MessageContent * jsstring :=
  match event with
  | ev_agent_step _ _ => p
  | ev_token content =>
      if k <? length (snd p ++ content)
      then (commit_text (snd p ++ content) (fst p), [])
      else (fst p, snd p ++ content)
  | _ => (commit_text (snd p) (fst p) ++ block_of event, [])
  end.

(** The text an event adds to the transcript. *)
Definition event_text (event : SSEEvent) : jsstring :=
  match event with
  | ev_token content => content
  | ev_error message => WARN ++ message
  | _ => []
  end.

(** The structured blocks of some contents, and those a sequence of events
    carries. *)
Definition structured_part (contents : list MessageContent) : list MessageContent :=
  List.filter (fun c => negb (is_text c)) contents.

Definition structured_of (event : SSEEvent) : list MessageContent :=
  match structured_block event with
  | Some block => [block]
  | None => []
  end.

(** No text block is empty. *)
Definition texts_nonempty (contents : list MessageContent) : Prop :=
  Forall (fun c => c <> kind_text []) contents.

(** The statuses the events report for a node, in order. *)
Definition node_statuses (node : jsstring) (events : list SSEEvent) : list PhaseStatus :=
  flat_map (fun event =>
              match event with
              | ev_agent_step n status =>
                  if decide (n = node) then [phase_of status] else []
              | _ => []
              end) events.

Definition is_agent_step (event : SSEEvent) : bool :=
  match event with
  | ev_agent_step _ _ => true
  | _ => false
  end.

(** A sequence of events after which nothing is pending: the empty one, or
    one that ends with a structured or terminal event. *)
Definition ends_flushed (events : list SSEEvent) : bool :=
  match last events with
  | Some event => is_terminal event || is_structured event
  | None => true
  end.

(** The [catch] block, as one more step. *)
Definition catch_step (raised : option Thrown) (p : list MessageContent * jsstring)
    : list MessageContent * jsstring :=
  match raised with
  | None => p
  | Some err => (commit_text (snd p) (fst p) ++ [kind_text (connection_error err)], [])
  end.

(** The contents a message that carries the assistant identifier ends
    with, when [send] has consumed the stream. *)
Definition final_contents (k : nat) (stream : Stream) (contents : list MessageContent)
    : list MessageContent :=
  fst (catch_step (raised stream)
         (fold_left (batch_step k) (yielded stream) (contents, []))).

(** An audience block without fans. *)
Definition is_empty_audience (c : MessageContent) : bool :=
  match c with
  | kind_audience data => (count data =? 0)%Z
  | _ => false
  end.

End Contents.

Import Contents.

(** * Properties *)

(** ** Strings *)

Section StringFacts.

Lemma trimStart_spaces (s : jsstring) :
  forallb is_space s = true -> trimStart s = [].
Proof.
  induction s as [|c s IH]; simpl; [reflexivity|].
  intros [Hc Hs]%andb_prop. rewrite Hc. auto.
Qed.

Lemma trimStart_nil_inv (s : jsstring) :
  trimStart s = [] -> forallb is_space s = true.
Proof.
  induction s as [|c s IH]; simpl; [reflexivity|].
  destruct (is_space c); [auto | discriminate].
Qed.

Lemma trimStart_head (s : jsstring) (c : N) (r : jsstring) :
  trimStart s = c :: r -> is_space c = false.
Proof.
  induction s as [|d s IH]; simpl; [discriminate|].
  destruct (is_space d) eqn:Hd; [exact IH|].
  intros [= <- _]. exact Hd.
Qed.

Lemma forallb_rev {A} (p : A -> bool) (l : list A) :
  forallb p (rev l) = forallb p l.
Proof.
  induction l as [|a l IH]; simpl; [reflexivity|].
  rewrite forallb_app, IH. simpl. rewrite andb_true_r. apply andb_comm.
Qed.

(** [trim] leaves nothing exactly of the strings made of white space. *)
Lemma trim_falsy (s : jsstring) :
  falsy (trim s) = forallb is_space s.
Proof.
  destruct (forallb is_space s) eqn:Hs.
  - unfold trim, trimEnd. rewrite (trimStart_spaces s Hs). reflexivity.
  - destruct (trim s) as [|c r] eqn:Ht; [|reflexivity].
    exfalso. unfold trim, trimEnd in Ht.
    apply (f_equal (@rev N)) in Ht. rewrite rev_involutive in Ht. simpl in Ht.
    apply trimStart_nil_inv in Ht. rewrite forallb_rev in Ht.
    destruct (trimStart s) as [|d r] eqn:Hd.
    + apply trimStart_nil_inv in Hd. congruence.
    + apply trimStart_head in Hd. simpl in Ht.
      apply andb_prop in Ht as [Ht _]. congruence.
Qed.

Lemma startsWith_app (p r : jsstring) : startsWith p (p ++ r) = true.
Proof.
  induction p as [|a p IH]; simpl; [reflexivity|].
  rewrite N.eqb_refl. exact IH.
Qed.

Lemma startsWith_inv (p s : jsstring) :
  startsWith p s = true -> s = p ++ slice_from (length p) s.
Proof.
  revert s. induction p as [|a p IH]; intros [|b s]; simpl; try discriminate;
    try reflexivity.
  intros [Hab Hs]%andb_prop. apply N.eqb_eq in Hab. subst b.
  f_equal. apply IH, Hs.
Qed.

End StringFacts.

(** ** Flushing text into the contents of a message *)

Section FlushFacts.

Lemma flush_into_nil (s : jsstring) : flush_into s [] = [kind_text s].
Proof. reflexivity. Qed.

Lemma flush_into_text (s a : jsstring) (cs : list MessageContent) :
  flush_into s (cs ++ [kind_text a]) = cs ++ [kind_text (a ++ s)].
Proof.
  unfold flush_into. rewrite last_snoc, removelast_last. reflexivity.
Qed.

Lemma flush_into_other (s : jsstring) (b : MessageContent) (cs : list MessageContent) :
  is_text b = false ->
  flush_into s (cs ++ [b]) = cs ++ [b; kind_text s].
Proof.
  intros Hb. unfold flush_into. rewrite last_snoc.
  destruct b; try discriminate; rewrite <- app_assoc; reflexivity.
Qed.

(** Two flushes in a row commit what one flush of the two texts commits. *)
Lemma flush_into_twice (a b : jsstring) (cs : list MessageContent) :
  flush_into b (flush_into a cs) = flush_into (a ++ b) cs.
Proof.
  destruct cs as [|c cs'] using rev_ind.
  - reflexivity.
  - destruct c.
    + rewrite !flush_into_text, app_assoc. reflexivity.
    + rewrite !flush_into_other by reflexivity.
      change (cs' ++ [kind_audience data; kind_text a])
        with (cs' ++ [kind_audience data] ++ [kind_text a]).
      rewrite app_assoc, flush_into_text, <- app_assoc. reflexivity.
    + rewrite !flush_into_other by reflexivity.
      change (cs' ++ [kind_campaign data; kind_text a])
        with (cs' ++ [kind_campaign data] ++ [kind_text a]).
      rewrite app_assoc, flush_into_text, <- app_assoc. reflexivity.
    + rewrite !flush_into_other by reflexivity.
      change (cs' ++ [kind_scheduled data; kind_text a])
        with (cs' ++ [kind_scheduled data] ++ [kind_text a]).
      rewrite app_assoc, flush_into_text, <- app_assoc. reflexivity.
Qed.

Lemma commit_text_app (a b : jsstring) (cs : list MessageContent) :
  commit_text (a ++ b) cs = commit_text b (commit_text a cs).
Proof.
  destruct a as [|x a]; [reflexivity|].
  destruct b as [|y b].
  - rewrite app_nil_r. reflexivity.
  - simpl. symmetry. apply (flush_into_twice (x :: a) (y :: b)).
Qed.

End FlushFacts.

(** ** Updating the assistant message in the list *)

Section UpdateFacts.

Variable assistantId : jsstring.

Lemma update_assistant_compose (f g : list MessageContent -> list MessageContent)
    (msgs : list Message) :
  update_assistant assistantId f (update_assistant assistantId g msgs)
  = update_assistant assistantId (fun cs => f (g cs)) msgs.
Proof.
  unfold update_assistant. rewrite map_map. apply map_ext. intros m.
  destruct (decide (id m = assistantId)) as [H|H]; simpl.
  - rewrite decide_True by exact H. reflexivity.
  - rewrite decide_False by exact H. reflexivity.
Qed.

Lemma update_assistant_ext (f g : list MessageContent -> list MessageContent)
    (msgs : list Message) :
  (forall cs, f cs = g cs) ->
  update_assistant assistantId f msgs = update_assistant assistantId g msgs.
Proof.
  intros H. unfold update_assistant. apply map_ext. intros m.
  destruct (decide (id m = assistantId)); [rewrite H|]; reflexivity.
Qed.

Lemma update_assistant_id (msgs : list Message) :
  update_assistant assistantId (fun cs => cs) msgs = msgs.
Proof.
  unfold update_assistant. rewrite <- (map_id msgs) at 2. apply map_ext.
  intros [i r cs]. simpl. destruct (decide (i = assistantId)); reflexivity.
Qed.

(** Messages that carry another identifier are left as they are. *)
Lemma update_assistant_fresh (f : list MessageContent -> list MessageContent)
    (msgs : list Message) :
  fresh assistantId msgs -> update_assistant assistantId f msgs = msgs.
Proof.
  induction 1 as [|m msgs Hm _ IH]; simpl; [reflexivity|].
  rewrite decide_False by exact Hm. f_equal. exact IH.
Qed.

(** With a fresh identifier, the one message updated is the assistant's. *)
Lemma update_assistant_last (f : list MessageContent -> list MessageContent)
    (msgs : list Message) (cs : list MessageContent) :
  fresh assistantId msgs ->
  update_assistant assistantId f
    (msgs ++ [ {| id := assistantId; role := assistant; contents := cs |} ])
  = msgs ++ [ {| id := assistantId; role := assistant; contents := f cs |} ].
Proof.
  intros H. unfold update_assistant at 1. rewrite map_app.
  fold (update_assistant assistantId f msgs).
  rewrite (update_assistant_fresh f msgs H). simpl.
  rewrite decide_True by reflexivity. reflexivity.
Qed.

Lemma update_assistant_lookup (f : list MessageContent -> list MessageContent)
    (msgs : list Message) (i : nat) :
  update_assistant assistantId f msgs !! i
  = (fun m => if decide (id m = assistantId)
              then {| id := id m; role := role m; contents := f (contents m) |}
              else m) <$> msgs !! i.
Proof. unfold update_assistant. apply list_lookup_fmap. Qed.

End UpdateFacts.

(** ** The reducer and the reference reducer *)

Section ReducerFacts.

Variable assistantId : jsstring.

Lemma flushText_messages (t : Turn) :
  flushText assistantId t
  = {| chat := setMessages
                 (update_assistant assistantId (commit_text (textBuffer t))) (chat t);
       textBuffer := [] |}.
Proof.
  destruct t as [[msgs inp str ph] [|c buf]]; unfold flushText, setMessages; simpl.
  - rewrite update_assistant_id. reflexivity.
  - reflexivity.
Qed.

Lemma flushText_buffer (t : Turn) : textBuffer (flushText assistantId t) = [].
Proof. rewrite flushText_messages. reflexivity. Qed.

Lemma flushText_empty (t : Turn) :
  textBuffer t = [] -> flushText assistantId t = t.
Proof. destruct t as [st buf]. simpl. intros ->. reflexivity. Qed.

Lemma flushText_idem (t : Turn) :
  flushText assistantId (flushText assistantId t) = flushText assistantId t.
Proof. apply flushText_empty, flushText_buffer. Qed.

Lemma appendContent_messages (content : MessageContent) (t : Turn) :
  appendContent assistantId content t
  = {| chat := setMessages
                 (update_assistant assistantId
                    (fun cs => commit_text (textBuffer t) cs ++ [content])) (chat t);
       textBuffer := [] |}.
Proof.
  unfold appendContent. rewrite flushText_messages. simpl.
  unfold setMessages. simpl. rewrite update_assistant_compose. reflexivity.
Qed.

(** What each event does, with the pending text written out. *)
Lemma on_event_flushing (k : nat) (t : Turn) (event : SSEEvent) :
  is_terminal event || is_structured event = true ->
  on_event assistantId k t event
  = {| chat := setMessages
                 (update_assistant assistantId
                    (fun cs => commit_text (textBuffer t) cs ++ block_of event)) (chat t);
       textBuffer := [] |}.
Proof.
  destruct event; simpl; try discriminate; intros _;
    rewrite ?appendContent_messages, ?flushText_buffer, flushText_messages; simpl;
    unfold setMessages; simpl; rewrite ?update_assistant_compose; try reflexivity.
  f_equal. f_equal. apply update_assistant_ext. intros cs. rewrite app_nil_r. reflexivity.
Qed.

End ReducerFacts.

(** ** Flush before append (C4) *)

Section FlushOrder.

Variable assistantId : jsstring.

(** C4.  A flush of a non-empty pending text rewrites each message that
    carries the assistant identifier as follows: when its last block is a
    text block, the pending text is added to the end of that block and no
    block is added; when it has no block, or its last block is a structured
    one, a single new text block with the pending text is added at the end.
    A structured event leaves the contents so flushed followed by its
    structured block; [done] is this flush alone, and so is a token that
    takes the buffer over the threshold. *)
Theorem flush_merges_into_preceding_text_only
    (t : Turn) (i : nat) (m : Message) :
  textBuffer t <> [] ->
  messages (chat t) !! i = Some m ->
  id m = assistantId ->
  exists flushed : list MessageContent,
    messages (chat (flushText assistantId t)) !! i
      = Some {| id := id m; role := role m; contents := flushed |}
    /\ (forall pre a, contents m = pre ++ [kind_text a] ->
          flushed = pre ++ [kind_text (a ++ textBuffer t)])
    /\ (contents m = [] -> flushed = [kind_text (textBuffer t)])
    /\ (forall pre b, contents m = pre ++ [b] -> is_text b = false ->
          flushed = pre ++ [b; kind_text (textBuffer t)])
    /\ (forall k event block, structured_block event = Some block ->
          messages (chat (on_event assistantId k t event)) !! i
            = Some {| id := id m; role := role m; contents := flushed ++ [block] |})
    /\ (forall k, on_event assistantId k t ev_done = flushText assistantId t)
    /\ (forall k content, k < length (textBuffer t ++ content) ->
          on_event assistantId k t (ev_token content)
          = flushText assistantId
              {| chat := chat t; textBuffer := textBuffer t ++ content |}).
Proof.
  intros Hbuf Hm Hid.
  exists (flush_into (textBuffer t) (contents m)).
  assert (Hcommit : forall cs, commit_text (textBuffer t) cs = flush_into (textBuffer t) cs).
  { intros cs. destruct (textBuffer t); [congruence | reflexivity]. }
  split; [|split; [|split; [|split; [|split; [|split]]]]].
  - rewrite flushText_messages. simpl.
    rewrite update_assistant_lookup, Hm. simpl.
    rewrite decide_True by exact Hid. rewrite Hcommit. reflexivity.
  - intros pre a ->. apply flush_into_text.
  - intros ->. reflexivity.
  - intros pre b -> Hb. apply flush_into_other, Hb.
  - intros k event block Hblock.
    rewrite on_event_flushing
      by (destruct event; try discriminate; reflexivity).
    simpl. rewrite update_assistant_lookup, Hm. simpl.
    rewrite decide_True by exact Hid. rewrite Hcommit.
    destruct event; try discriminate; injection Hblock as <-; reflexivity.
  - reflexivity.
  - intros k content Hk. simpl.
    apply Nat.ltb_lt in Hk. rewrite Hk. reflexivity.
Qed.

End FlushOrder.

Lemma flush_merges_into_preceding_text_only_witness :
  exists flushed : list MessageContent,
    messages (chat (flushText (js "a1")
      {| chat := Sample.streaming_state [kind_text (js "Hello")];
         textBuffer := js " world" |})) !! 1
    = Some {| id := js "a1"; role := assistant; contents := flushed |}
    /\ flushed = [kind_text (js "Hello world")].
Proof.
  destruct (flush_merges_into_preceding_text_only (js "a1")
              {| chat := Sample.streaming_state [kind_text (js "Hello")];
                 textBuffer := js " world" |}
              1 (Sample.assistant_message [kind_text (js "Hello")]))
    as (flushed & H1 & H2 & _).
  - vm_compute. discriminate.
  - reflexivity.
  - reflexivity.
  - exists flushed. split; [exact H1|]. exact (H2 [] (js "Hello") eq_refl).
Defined.

(** ** The batched reducer refines the reference reducer (C1, C3) *)

Section Refinement.

Variable assistantId : jsstring.

Lemma view_empty (t : Turn) : textBuffer t = [] -> view assistantId t = chat t.
Proof. intros H. unfold view. rewrite flushText_empty by exact H. reflexivity. Qed.

(** One step of the batched reducer is one step of the reference reducer on
    the views, whatever the threshold. *)
Lemma on_event_view (k : nat) (t : Turn) (event : SSEEvent) :
  view assistantId (on_event assistantId k t event)
  = reference_on_event assistantId (view assistantId t) event.
Proof.
  unfold view.
  destruct (is_terminal event || is_structured event) eqn:Hflush.
  - rewrite on_event_flushing by exact Hflush.
    rewrite flushText_empty by reflexivity.
    rewrite flushText_messages. simpl.
    destruct event; try discriminate; simpl; unfold setMessages; simpl;
      rewrite update_assistant_compose; reflexivity.
  - destruct event; try discriminate; simpl.
    + rewrite !flushText_messages. reflexivity.
    + assert (Hsame :
        flushText assistantId
          (if k <? length (textBuffer t ++ content)
           then flushText assistantId
                  {| chat := chat t; textBuffer := textBuffer t ++ content |}
           else {| chat := chat t; textBuffer := textBuffer t ++ content |})
        = flushText assistantId
            {| chat := chat t; textBuffer := textBuffer t ++ content |}).
      { destruct (k <? _); [apply flushText_idem | reflexivity]. }
      rewrite Hsame, !flushText_messages. simpl. unfold setMessages. simpl.
      rewrite update_assistant_compose. f_equal.
      apply update_assistant_ext. intros cs. apply commit_text_app.
Qed.

Lemma fold_on_event_view (k : nat) (events : list SSEEvent) (t : Turn) :
  view assistantId (fold_left (on_event assistantId k) events t)
  = fold_left (reference_on_event assistantId) events (view assistantId t).
Proof.
  revert t. induction events as [|e events IH]; intros t; simpl; [reflexivity|].
  rewrite IH, on_event_view. reflexivity.
Qed.

(** A terminal or structured event leaves no pending text. *)
Lemma on_event_flushing_buffer (k : nat) (t : Turn) (event : SSEEvent) :
  is_terminal event || is_structured event = true ->
  textBuffer (on_event assistantId k t event) = [].
Proof. intros H. rewrite on_event_flushing by exact H. reflexivity. Qed.

Lemma ends_with_terminal_inv (events : list SSEEvent) :
  ends_with_terminal events = true ->
  exists pre event, events = pre ++ [event] /\ is_terminal event = true.
Proof.
  unfold ends_with_terminal.
  destruct events as [|e events] using rev_ind; [discriminate|].
  rewrite last_snoc. eauto.
Qed.

(** After a terminal event nothing is pending, and the state is that of the
    reference reducer. *)
Lemma fold_on_event_terminal (k : nat) (events : list SSEEvent) (st : ChatState) :
  ends_with_terminal events = true ->
  fold_left (on_event assistantId k) events {| chat := st; textBuffer := [] |}
  = {| chat := fold_left (reference_on_event assistantId) events st;
       textBuffer := [] |}.
Proof.
  intros Hend.
  destruct (ends_with_terminal_inv events Hend) as (pre & e & Hev & He).
  set (final := fold_left (on_event assistantId k) events _).
  assert (Hbuf : textBuffer final = []).
  { unfold final. rewrite Hev, fold_left_app. simpl.
    apply on_event_flushing_buffer. rewrite He. reflexivity. }
  assert (Hchat : chat final = fold_left (reference_on_event assistantId) events st).
  { rewrite <- (view_empty final Hbuf). unfold final.
    rewrite fold_on_event_view. rewrite view_empty by reflexivity. reflexivity. }
  destruct final as [c b]. simpl in Hbuf, Hchat. subst. reflexivity.
Qed.

(** The reference reducer, on the messages: the transcript of the events
    replaces the contents of the assistant message. *)
Lemma reference_messages (events : list SSEEvent) (st : ChatState) :
  messages (fold_left (reference_on_event assistantId) events st)
  = update_assistant assistantId (fun cs => transcript cs events) (messages st).
Proof.
  revert st. induction events as [|e events IH]; intros st; simpl.
  - symmetry. apply update_assistant_id.
  - rewrite IH. destruct e; simpl; rewrite ?update_assistant_compose;
      try reflexivity.
    apply update_assistant_ext. intros cs. unfold transcript. simpl.
    rewrite app_nil_r. reflexivity.
Qed.

Lemma span_text_tokens (fragments : list jsstring) :
  span_text (map ev_token fragments) = concat fragments.
Proof.
  unfold span_text. rewrite map_map. simpl. rewrite map_id. reflexivity.
Qed.

(** Between two flushes the reference reducer has committed the text of the
    tokens and recorded the phase events. *)
Lemma reference_span (span : list SSEEvent) (st : ChatState) :
  Forall (fun e => is_terminal e || is_structured e = false) span ->
  fold_left (reference_on_event assistantId) span st
  = setMessages (update_assistant assistantId (commit_text (span_text span)))
      (setPhases (fun projection => fold_left record_phase span projection) st).
Proof.
  intros Hspan. revert st.
  induction Hspan as [|e span He _ IH]; intros st.
  - destruct st. unfold setMessages, setPhases. simpl.
    rewrite update_assistant_id. reflexivity.
  - simpl. rewrite IH. destruct e; try discriminate He;
      unfold setMessages, setPhases, updatePhase; simpl.
    + reflexivity.
    + rewrite update_assistant_compose. f_equal.
      apply update_assistant_ext. intros cs. symmetry.
      apply (commit_text_app content (span_text span)).
Qed.

End Refinement.

(** ** The order of the blocks *)

Section BlockOrder.

Lemma merge_texts_app_congr (p x y : list MessageContent) :
  merge_texts x = merge_texts y -> merge_texts (p ++ x) = merge_texts (p ++ y).
Proof. intros H. induction p as [|c p IH]; simpl; [exact H | rewrite IH; reflexivity]. Qed.

Lemma merge_texts_two (a s : jsstring) (r : list MessageContent) :
  merge_texts (kind_text (a ++ s) :: r) = merge_texts (kind_text a :: kind_text s :: r).
Proof.
  simpl. destruct (merge_texts r) as [|[b| | |] r']; simpl; try reflexivity.
  rewrite app_assoc. reflexivity.
Qed.

Lemma merge_texts_flush (s : jsstring) (cs r : list MessageContent) :
  merge_texts (flush_into s cs ++ r) = merge_texts (cs ++ kind_text s :: r).
Proof.
  destruct cs as [|c cs'] using rev_ind; [reflexivity|].
  destruct c.
  - rewrite flush_into_text, <- !app_assoc. apply merge_texts_app_congr.
    apply merge_texts_two.
  - rewrite flush_into_other by reflexivity. rewrite <- !app_assoc. reflexivity.
  - rewrite flush_into_other by reflexivity. rewrite <- !app_assoc. reflexivity.
  - rewrite flush_into_other by reflexivity. rewrite <- !app_assoc. reflexivity.
Qed.

(** Up to the joining of adjacent texts, the transcript is the blocks of
    the events, in the order of the events. *)
Lemma transcript_order (events : list SSEEvent) (cs : list MessageContent) :
  merge_texts (transcript cs events) = merge_texts (cs ++ flat_map block_of events).
Proof.
  revert cs. induction events as [|e events IH]; intros cs; unfold transcript; simpl.
  - rewrite app_nil_r. reflexivity.
  - fold (transcript (commit_event cs e) events). rewrite IH.
    destruct e; simpl; rewrite <- ?app_assoc; try reflexivity.
    destruct content as [|x content]; [reflexivity|]. simpl.
    apply merge_texts_flush.
Qed.

End BlockOrder.

(** C1.  For a sequence of events that ends with a terminal event, the
    reducer that batches tokens, at any threshold (50 in [send]), ends with
    no pending text and in the state of the reference reducer that commits
    every token on arrival.  The contents of the assistant message are then
    the transcript of the events, and, adjacent texts read as one, the
    blocks of the events in the order of the events. *)
Theorem final_blocks_independent_of_flush_threshold
    (assistantId : jsstring) (k : nat) (st : ChatState) (events : list SSEEvent) :
  ends_with_terminal events = true ->
  let final :=
    fold_left (on_event assistantId k) events {| chat := st; textBuffer := [] |} in
  textBuffer final = []
  /\ chat final = fold_left (reference_on_event assistantId) events st
  /\ final = fold_left (on_event assistantId FLUSH_CHARS) events
               {| chat := st; textBuffer := [] |}
  /\ messages (chat final)
     = update_assistant assistantId (fun cs => transcript cs events) (messages st)
  /\ forall cs, merge_texts (transcript cs events)
                = merge_texts (cs ++ flat_map block_of events).
Proof.
  intros Hend final. subst final.
  rewrite !(fold_on_event_terminal assistantId _ events st Hend). cbn [chat textBuffer].
  split; [reflexivity|]. split; [reflexivity|]. split; [reflexivity|].
  split; [apply reference_messages|].
  intros cs. apply transcript_order.
Qed.

(** The scenario of a query: two phase events, the audience, sixty tokens of
    one character and [done], batched at 50 and at 3. *)
Lemma final_blocks_independent_of_flush_threshold_witness :
  let events :=
    [ev_agent_step (js "query_crm") step_running;
     ev_agent_step (js "query_crm") step_done;
     ev_audience_result (Sample.audience 12)]
    ++ repeat (ev_token (js "x")) 60 ++ [ev_done] in
  map contents
    (messages (chat (fold_left (on_event (js "a1") 3) events
                       {| chat := Sample.streaming_state []; textBuffer := [] |})))
  = [ [kind_text (js "Find jazz fans in Chicago")];
      [kind_audience (Sample.audience 12); kind_text (concat (repeat (js "x") 60))] ].
Proof.
  intros events.
  destruct (final_blocks_independent_of_flush_threshold (js "a1") 3
              (Sample.streaming_state []) events eq_refl) as (_ & _ & _ & H & _).
  rewrite H. reflexivity.
Defined.

(** C3.  From a state with no pending text, a run of tokens, possibly with
    phase events among them, closed by a structured or terminal event,
    commits the concatenation of the fragments, in arrival order, as one
    text: added to the text block that ends the message if there is one, as
    one new text block otherwise (and nothing when all fragments are empty);
    the block of the closing event follows.  The threshold plays no part. *)
Theorem token_span_commits_concatenation
    (assistantId : jsstring) (k : nat) (st : ChatState)
    (span : list SSEEvent) (event : SSEEvent) :
  Forall (fun e => is_terminal e || is_structured e = false) span ->
  is_terminal event || is_structured event = true ->
  fold_left (on_event assistantId k) (span ++ [event])
    {| chat := st; textBuffer := [] |}
  = {| chat := setMessages
                 (update_assistant assistantId
                    (fun cs => commit_text (span_text span) cs ++ block_of event))
                 (setPhases (fun projection => fold_left record_phase span projection) st);
       textBuffer := [] |}
  /\ (forall fragments, span = map ev_token fragments -> span_text span = concat fragments)
  /\ (forall pre a,
        commit_text (span_text span) (pre ++ [kind_text a])
        = pre ++ [kind_text (a ++ span_text span)])
  /\ (forall cs, span_text span <> [] ->
        (cs = [] \/ exists pre b, cs = pre ++ [b] /\ is_text b = false) ->
        commit_text (span_text span) cs = cs ++ [kind_text (span_text span)]).
Proof.
  intros Hspan Hflush. split; [|split; [|split]].
  - rewrite fold_left_app. simpl.
    set (t := fold_left (on_event assistantId k) span _).
    rewrite on_event_flushing by exact Hflush.
    assert (Hview : view assistantId t
                    = setMessages
                        (update_assistant assistantId (commit_text (span_text span)))
                        (setPhases
                           (fun projection => fold_left record_phase span projection) st)).
    { unfold t. rewrite fold_on_event_view, view_empty by reflexivity.
      apply reference_span, Hspan. }
    unfold view in Hview. rewrite flushText_messages in Hview. simpl in Hview.
    f_equal.
    transitivity (setMessages
                    (update_assistant assistantId (fun cs => cs ++ block_of event))
                    (setMessages
                       (update_assistant assistantId (commit_text (textBuffer t)))
                       (chat t))).
    + unfold setMessages. simpl. rewrite update_assistant_compose. reflexivity.
    + rewrite Hview. unfold setMessages. simpl.
      rewrite update_assistant_compose. reflexivity.
  - intros fragments ->. apply span_text_tokens.
  - intros pre a. destruct (span_text span) as [|x s] eqn:Hs.
    + simpl. rewrite app_nil_r. reflexivity.
    + simpl. apply flush_into_text.
  - intros cs Hne Hcs. destruct (span_text span) as [|x s]; [congruence|]. simpl.
    destruct Hcs as [-> | (pre & b & -> & Hb)]; [reflexivity|].
    rewrite flush_into_other by exact Hb. rewrite <- app_assoc. reflexivity.
Qed.

Lemma token_span_commits_concatenation_witness :
  fold_left (on_event (js "a1") 4)
    ([ev_token (js "I fou"); ev_agent_step (js "analyzing") step_done;
      ev_token (js "nd 12"); ev_token (js " fans")] ++ [ev_done])
    {| chat := Sample.streaming_state [kind_audience (Sample.audience 12)];
       textBuffer := [] |}
  = {| chat :=
         setPhases (fun _ => {[ js "analyzing" := phase_done ]})
           (Sample.streaming_state
              [kind_audience (Sample.audience 12); kind_text (js "I found 12 fans")]);
       textBuffer := [] |}.
Proof.
  destruct (token_span_commits_concatenation (js "a1") 4
              (Sample.streaming_state [kind_audience (Sample.audience 12)])
              [ev_token (js "I fou"); ev_agent_step (js "analyzing") step_done;
               ev_token (js "nd 12"); ev_token (js " fans")] ev_done)
    as (H & _).
  - repeat constructor.
  - reflexivity.
  - rewrite H. reflexivity.
Defined.

(** ** Splitting the buffer into frames *)

Section SplitFacts.

(** The recursion of [split_blank], as an induction principle. *)
Lemma split_blank_ind (P : jsstring -> Prop) :
  P [] ->
  (forall c, P [c]) ->
  (forall s, P s -> P (LF :: LF :: s)) ->
  (forall c d s, ((c =? LF) && (d =? LF))%N = false -> P (d :: s) -> P (c :: d :: s)) ->
  forall s, P s.
Proof.
  intros Hnil Hone Hsep Hchar s.
  assert (H : P s /\ forall c, P (c :: s)).
  { induction s as [|d s [IH1 IH2]]; [split; [exact Hnil | exact Hone]|].
    split; [apply IH2|]. intros c.
    destruct ((c =? LF) && (d =? LF))%N eqn:Hcd.
    - apply andb_prop in Hcd as [->%N.eqb_eq ->%N.eqb_eq]. apply Hsep, IH1.
    - apply Hchar; [exact Hcd | apply IH2]. }
  exact (proj1 H).
Qed.

Lemma split_blank_sep (s : jsstring) :
  split_blank (LF :: LF :: s) = [] :: split_blank s.
Proof. reflexivity. Qed.

Lemma split_blank_char (c d : N) (s : jsstring) :
  ((c =? LF) && (d =? LF))%N = false ->
  split_blank (c :: d :: s) = cons_head c (split_blank (d :: s)).
Proof. intros H. simpl. simpl in H. rewrite H. reflexivity. Qed.

Lemma cons_head_nonempty (c : N) (parts : list jsstring) : cons_head c parts <> [].
Proof. destruct parts; discriminate. Qed.

Lemma split_blank_nonempty (s : jsstring) : split_blank s <> [].
Proof.
  induction s using split_blank_ind; try discriminate.
  rewrite split_blank_char by assumption. apply cons_head_nonempty.
Qed.

(** A text without separator is its own single part. *)
Lemma split_blank_single (s x : jsstring) : split_blank s = [x] -> x = s.
Proof.
  revert x. induction s as [|c|s IH|c d s Hcd IH] using split_blank_ind; intros x.
  - intros [= <-]. reflexivity.
  - intros [= <-]. reflexivity.
  - rewrite split_blank_sep. intros [= _ H]. destruct (split_blank_nonempty s H).
  - rewrite split_blank_char by exact Hcd.
    destruct (split_blank (d :: s)) as [|y [|z parts]] eqn:Hparts; simpl.
    + destruct (split_blank_nonempty _ Hparts).
    + intros [= <-]. f_equal. apply IH. reflexivity.
    + discriminate.
Qed.

(** The first part starts as the text does. *)
Lemma split_blank_head (d : N) (s : jsstring) :
  exists parts, split_blank (d :: s) = [] :: parts
                \/ exists x, split_blank (d :: s) = (d :: x) :: parts.
Proof.
  destruct s as [|e s]; [exists []; right; exists []; reflexivity|].
  destruct ((d =? LF) && (e =? LF))%N eqn:Hde.
  - apply andb_prop in Hde as [->%N.eqb_eq ->%N.eqb_eq].
    exists (split_blank s). left. reflexivity.
  - rewrite split_blank_char by exact Hde.
    destruct (split_blank (e :: s)) as [|y parts]; simpl.
    + exists []. right. exists []. reflexivity.
    + exists parts. right. exists y. reflexivity.
Qed.

(** No part holds a separator. *)
Lemma split_blank_parts (s : jsstring) :
  Forall (fun p => split_blank p = [p]) (split_blank s).
Proof.
  induction s as [|c|s IH|c d s Hcd IH] using split_blank_ind.
  - repeat constructor.
  - repeat constructor.
  - rewrite split_blank_sep. constructor; [reflexivity | exact IH].
  - rewrite split_blank_char by exact Hcd.
    destruct (split_blank_head d s) as (parts & [Hs | (x & Hs)]);
      rewrite Hs in IH |- *; simpl; inversion_clear IH as [|? ? Hx Hparts];
      constructor; try exact Hparts.
    + reflexivity.
    + rewrite split_blank_char by exact Hcd. rewrite Hx. reflexivity.
Qed.

(** Text that arrives later does not change the parts already complete: it
    continues the last part. *)
Lemma split_blank_app (s r : jsstring) :
  split_blank (s ++ r)
  = removelast (split_blank s) ++ split_blank (default [] (last (split_blank s)) ++ r).
Proof.
  induction s as [|c|s IH|c d s Hcd IH] using split_blank_ind.
  - reflexivity.
  - reflexivity.
  - change ((LF :: LF :: s) ++ r) with (LF :: LF :: (s ++ r)).
    rewrite !split_blank_sep, IH.
    destruct (split_blank s) as [|y parts] eqn:Hs;
      [destruct (split_blank_nonempty s Hs)|].
    reflexivity.
  - change ((c :: d :: s) ++ r) with (c :: d :: (s ++ r)).
    rewrite !split_blank_char by exact Hcd.
    change (d :: (s ++ r)) with ((d :: s) ++ r). rewrite IH.
    destruct (split_blank (d :: s)) as [|y [|z parts]] eqn:Hs.
    + destruct (split_blank_nonempty _ Hs).
    + apply split_blank_single in Hs. subst y.
      change (cons_head c (split_blank ((d :: s) ++ r))
              = split_blank (c :: d :: (s ++ r))).
      rewrite split_blank_char by exact Hcd. reflexivity.
    + reflexivity.
Qed.

End SplitFacts.

(** ** Decoding the stream (C5) *)

Section Decoding.

Variable JSON_parse : jsstring -> option SSEEvent.

Lemma is_frame_cons (c : N) (f : jsstring) :
  is_frame (c :: f) = true ->
  is_frame f = true
  /\ ((c =? LF) && (hd LF f =? LF))%N = false.
Proof.
  unfold is_frame. destruct f as [|d f]; simpl.
  - rewrite orb_false_r. intros H%negb_true_iff. split; [reflexivity | exact H].
  - intros H%negb_true_iff. apply orb_false_elim in H as [H1 H2].
    split; [apply negb_true_iff, H2 | exact H1].
Qed.

(** A frame and the blank line after it are split off as one part. *)
Lemma split_blank_frame (f rest : jsstring) :
  is_frame f = true ->
  split_blank (f ++ LF :: LF :: rest) = f :: split_blank rest.
Proof.
  induction f as [|c f IH]; intros Hf; [reflexivity|].
  apply is_frame_cons in Hf as [Hf Hc]. specialize (IH Hf).
  destruct f as [|d f].
  - change (split_blank (c :: LF :: LF :: rest) = [c] :: split_blank rest).
    rewrite split_blank_char by exact Hc. rewrite split_blank_sep. reflexivity.
  - change (split_blank (c :: d :: (f ++ LF :: LF :: rest))
            = (c :: d :: f) :: split_blank rest).
    rewrite split_blank_char by exact Hc.
    change (d :: (f ++ LF :: LF :: rest)) with ((d :: f) ++ LF :: LF :: rest).
    rewrite IH. reflexivity.
Qed.

Lemma split_blank_wire (frames : list jsstring) (tail : jsstring) :
  Forall (fun f => is_frame f = true) frames ->
  split_blank (wire frames ++ tail) = frames ++ split_blank tail.
Proof.
  induction 1 as [|f frames Hf _ IH]; [reflexivity|].
  unfold wire. simpl. fold (wire frames).
  rewrite <- !app_assoc. simpl. rewrite split_blank_frame by exact Hf.
  rewrite IH. reflexivity.
Qed.

Lemma pop_last_split (s : jsstring) :
  pop_last (split_blank s)
  = (removelast (split_blank s), default [] (last (split_blank s))).
Proof.
  unfold pop_last. destruct (last (split_blank s)) eqn:Hl; [reflexivity|].
  apply last_None in Hl. destruct (split_blank_nonempty s Hl).
Qed.

Lemma last_split_blank (s : jsstring) :
  split_blank (default [] (last (split_blank s)))
  = [default [] (last (split_blank s))].
Proof.
  pose proof (split_blank_parts s) as Hparts.
  destruct (last (split_blank s)) as [p|] eqn:Hl; [|reflexivity].
  simpl. apply last_Some in Hl as [l' Hl]. rewrite Hl in Hparts.
  apply Forall_app in Hparts as [_ Hp]. inversion_clear Hp. assumption.
Qed.

Lemma is_frame_cons_intro (c : N) (f : jsstring) :
  is_frame f = true ->
  ((c =? LF) && (hd LF f =? LF))%N = false ->
  is_frame (c :: f) = true.
Proof.
  unfold is_frame. destruct f as [|d f]; simpl.
  - rewrite orb_false_r. intros _ ->. reflexivity.
  - intros Hf%negb_true_iff ->. simpl in Hf. rewrite Hf. reflexivity.
Qed.

(** Every text is a sequence of frames, each followed by a blank line, and
    a rest without blank line: the parts [split_blank] finds. *)
Lemma split_blank_is_wire (s : jsstring) :
  s = wire (removelast (split_blank s)) ++ default [] (last (split_blank s))
  /\ Forall (fun f => is_frame f = true) (removelast (split_blank s)).
Proof.
  induction s as [|c|s [IHs IHf]|c d s Hcd [IHs IHf]] using split_blank_ind.
  - split; [reflexivity | constructor].
  - split; [reflexivity | constructor].
  - rewrite split_blank_sep.
    destruct (split_blank s) as [|y parts] eqn:Hs;
      [destruct (split_blank_nonempty s Hs)|].
    change (removelast ([] :: y :: parts)) with ([] :: removelast (y :: parts)).
    change (last ([] :: y :: parts)) with (last (y :: parts)).
    split.
    + change (LF :: LF :: s
              = LF :: LF :: (wire (removelast (y :: parts))
                             ++ default [] (last (y :: parts)))).
      rewrite <- IHs. reflexivity.
    + constructor; [reflexivity | exact IHf].
  - rewrite split_blank_char by exact Hcd.
    destruct (split_blank_head d s) as (parts & [Hs | (x & Hs)]); rewrite Hs in *.
    + destruct parts as [|y parts].
      * apply split_blank_single in Hs. discriminate Hs.
      * change (removelast (cons_head c ([] :: y :: parts)))
          with ([c] :: removelast (y :: parts)).
        change (last (cons_head c ([] :: y :: parts))) with (last (y :: parts)).
        change (removelast ([] :: y :: parts)) with ([] :: removelast (y :: parts)) in *.
        change (last ([] :: y :: parts)) with (last (y :: parts)) in *.
        inversion_clear IHf as [|? ? _ IHf']. split.
        -- rewrite IHs at 1. reflexivity.
        -- constructor; [|exact IHf'].
           apply is_frame_cons_intro; [reflexivity|].
           assert (Hd : d = LF).
           { unfold wire in IHs. simpl in IHs. injection IHs as -> _. reflexivity. }
           subst d. simpl. simpl in Hcd. rewrite andb_true_r in *. exact Hcd.
    + destruct parts as [|y parts].
      * apply split_blank_single in Hs. injection Hs as ->.
        split; [reflexivity | constructor].
      * change (removelast (cons_head c ((d :: x) :: y :: parts)))
          with ((c :: d :: x) :: removelast (y :: parts)).
        change (last (cons_head c ((d :: x) :: y :: parts))) with (last (y :: parts)).
        change (removelast ((d :: x) :: y :: parts))
          with ((d :: x) :: removelast (y :: parts)) in *.
        change (last ((d :: x) :: y :: parts)) with (last (y :: parts)) in *.
        inversion_clear IHf as [|? ? Hx IHf']. split.
        -- rewrite IHs at 1. reflexivity.
        -- constructor; [|exact IHf'].
           apply is_frame_cons_intro; [exact Hx | exact Hcd].
Qed.

(** The events of a stream do not depend on how the text is cut into
    chunks: they are those of the parts of the whole text, the last part
    left out. *)
Lemma read_loop_chunks (chunks : list jsstring) (buffer : jsstring) :
  split_blank buffer = [buffer] ->
  read_loop JSON_parse buffer chunks
  = flat_map (decode_part JSON_parse)
      (removelast (split_blank (buffer ++ concat chunks))).
Proof.
  revert buffer. induction chunks as [|value chunks IH]; intros buffer Hbuf; simpl.
  - rewrite app_nil_r, Hbuf. reflexivity.
  - rewrite pop_last_split.
    rewrite IH by apply last_split_blank.
    rewrite app_assoc, (split_blank_app (buffer ++ value) (concat chunks)).
    rewrite removelast_app by apply split_blank_nonempty.
    rewrite flat_map_app. reflexivity.
Qed.

(** A corrupt frame yields no event. *)
Lemma decode_part_corrupt (f : jsstring) :
  corrupt_frame JSON_parse f -> decode_part JSON_parse f = [].
Proof.
  intros Hc. unfold decode_part.
  destruct (startsWith (js "data: ") (trim f)) eqn:Hp; [|reflexivity]. cbn [negb].
  destruct (JSON_parse (slice_from 6 (trim f))) as [event|] eqn:Hj; [|reflexivity].
  exfalso. apply Hc. exists (slice_from 6 (trim f)), event.
  split; [|exact Hj]. apply (startsWith_inv (js "data: ") (trim f) Hp).
Qed.

(** A valid frame yields its event. *)
Lemma decode_part_valid (f json : jsstring) (event : SSEEvent) :
  trim f = js "data: " ++ json -> JSON_parse json = Some event ->
  decode_part JSON_parse f = [event].
Proof.
  intros Ht Hj. unfold decode_part. rewrite Ht, startsWith_app. cbn [negb].
  change (slice_from 6 (js "data: " ++ json)) with json. rewrite Hj. reflexivity.
Qed.

End Decoding.

(** C5.  Take a stream of frames, each followed by a blank line, then any
    text, cut into chunks in any way, and the same stream without one of its
    frames, a corrupt one standing between two frames [v1] and [v2].  The
    events [streamChat] yields are the same for both: those of the frames
    before, of [v1], of [v2] and of what follows.  So is the stream handed to
    the reducer, and the state the reducer ends in.  (Every text is such a
    stream of frames, by [split_blank_is_wire].) *)
Theorem corrupt_frame_is_dropped
    (JSON_parse : jsstring -> option SSEEvent)
    (before after : list jsstring) (v1 c v2 tail : jsstring)
    (chunks chunks' : list jsstring) :
  Forall (fun f => is_frame f = true) (before ++ v1 :: c :: v2 :: after) ->
  corrupt_frame JSON_parse c ->
  concat chunks = wire (before ++ v1 :: c :: v2 :: after) ++ tail ->
  concat chunks' = wire (before ++ v1 :: v2 :: after) ++ tail ->
  read_loop JSON_parse [] chunks = read_loop JSON_parse [] chunks'
  /\ read_loop JSON_parse [] chunks
     = flat_map (decode_part JSON_parse) before
       ++ decode_part JSON_parse v1 ++ decode_part JSON_parse v2
       ++ flat_map (decode_part JSON_parse) after
       ++ flat_map (decode_part JSON_parse) (removelast (split_blank tail))
  /\ (forall status read_error,
        streamChat JSON_parse (http_status true status chunks read_error)
        = streamChat JSON_parse (http_status true status chunks' read_error))
  /\ (forall assistantId k status read_error t,
        consume assistantId k
          (streamChat JSON_parse (http_status true status chunks read_error)) t
        = consume assistantId k
            (streamChat JSON_parse (http_status true status chunks' read_error)) t).
Proof.
  intros Hframes Hc Hchunks Hchunks'.
  assert (Hframes' : Forall (fun f => is_frame f = true) (before ++ v1 :: v2 :: after)).
  { apply Forall_app in Hframes as [Hb Hrest]. apply Forall_app. split; [exact Hb|].
    inversion_clear Hrest as [|? ? H1 Hrest']. inversion_clear Hrest' as [|? ? _ H2].
    constructor; assumption. }
  assert (Hwith : read_loop JSON_parse [] chunks
     = flat_map (decode_part JSON_parse) before
       ++ decode_part JSON_parse v1 ++ decode_part JSON_parse v2
       ++ flat_map (decode_part JSON_parse) after
       ++ flat_map (decode_part JSON_parse) (removelast (split_blank tail))).
  { rewrite read_loop_chunks by reflexivity. simpl. rewrite Hchunks.
    rewrite split_blank_wire by exact Hframes.
    rewrite removelast_app by apply split_blank_nonempty.
    rewrite !flat_map_app. simpl. rewrite (decode_part_corrupt JSON_parse c Hc). simpl.
    rewrite ?flat_map_app, <- ?app_assoc. reflexivity. }
  assert (Hwithout : read_loop JSON_parse [] chunks'
     = flat_map (decode_part JSON_parse) before
       ++ decode_part JSON_parse v1 ++ decode_part JSON_parse v2
       ++ flat_map (decode_part JSON_parse) after
       ++ flat_map (decode_part JSON_parse) (removelast (split_blank tail))).
  { rewrite read_loop_chunks by reflexivity. simpl. rewrite Hchunks'.
    rewrite split_blank_wire by exact Hframes'.
    rewrite removelast_app by apply split_blank_nonempty.
    rewrite !flat_map_app. simpl.
    rewrite ?flat_map_app, <- ?app_assoc. reflexivity. }
  split; [congruence|]. split; [exact Hwith|]. split.
  - intros status read_error. simpl. congruence.
  - intros assistantId k status read_error t. simpl. rewrite Hwith, Hwithout. reflexivity.
Qed.

Lemma corrupt_frame_is_dropped_witness :
  let text := wire [Sample.frame_token_hi; Sample.frame_garbage; Sample.frame_done] in
  read_loop Sample.parse [] [take 40 text; drop 40 text]
  = [ev_token (js "Hi"); ev_done]
  /\ read_loop Sample.parse [] [wire [Sample.frame_token_hi; Sample.frame_done]]
     = [ev_token (js "Hi"); ev_done].
Proof.
  intros text.
  assert (Hc : corrupt_frame Sample.parse Sample.frame_garbage).
  { intros (json & event & Ht & Hp). vm_compute in Ht.
    injection Ht as <-. vm_compute in Hp. discriminate Hp. }
  destruct (corrupt_frame_is_dropped Sample.parse []
              [] Sample.frame_token_hi Sample.frame_garbage Sample.frame_done []
              [take 40 text; drop 40 text]
              [wire [Sample.frame_token_hi; Sample.frame_done]])
    as (H1 & H2 & _).
  - repeat constructor.
  - exact Hc.
  - vm_compute. reflexivity.
  - vm_compute. reflexivity.
  - rewrite <- H1. split; rewrite H2; vm_compute; reflexivity.
Defined.

(** ** The phase projection (C2) *)

Section Phases.

Import AgentPipeline.

Lemma status_of_insert (node : jsstring) (status : PhaseStatus)
    (activePhases : gmap jsstring PhaseStatus) (phase : Phase) :
  status_of (<[node := status]> activePhases) phase
  = if decide (phase_id phase = node) then status else status_of activePhases phase.
Proof.
  unfold status_of. destruct (decide (phase_id phase = node)) as [->|Hne].
  - rewrite lookup_insert_eq. reflexivity.
  - rewrite lookup_insert_ne by congruence. reflexivity.
Qed.

(** A status of an event is never [idle], so the pipeline is shown once a
    phase event has been recorded. *)
Lemma hasActivity_insert (node : jsstring) (status : StepStatus)
    (activePhases : gmap jsstring PhaseStatus) :
  hasActivity (<[node := phase_of status]> activePhases) = true.
Proof.
  unfold hasActivity. apply existsb_exists. exists (node, phase_of status). split.
  - apply list_elem_of_In, elem_of_map_to_list, lookup_insert_eq.
  - destruct status; reflexivity.
Qed.

(** C2, as the code has it.  An [agent_step] event records its status under
    the node string of the event itself, and changes nothing else: not the
    messages, the input, the lock or the pending text.  The pipeline reads
    the projection at the identifiers of its five phases, so the status
    shows under a phase exactly when the node is that identifier; with any
    other node the status of every phase is as before.  In both cases the
    pipeline is rendered, since the projection now holds a status other than
    [idle]. *)
Theorem agent_step_recorded_under_its_node
    (assistantId : jsstring) (k : nat) (t : Turn)
    (node : jsstring) (status : StepStatus) :
  let t' := on_event assistantId k t (ev_agent_step node status) in
  phases (chat t') = <[node := phase_of status]> (phases (chat t))
  /\ phases (chat t') !! node = Some (phase_of status)
  /\ (forall other, other <> node -> phases (chat t') !! other = phases (chat t) !! other)
  /\ messages (chat t') = messages (chat t)
  /\ input (chat t') = input (chat t)
  /\ isStreaming (chat t') = isStreaming (chat t)
  /\ textBuffer t' = textBuffer t
  /\ (forall phase,
        status_of (phases (chat t')) phase
        = if decide (phase_id phase = node) then phase_of status
          else status_of (phases (chat t)) phase)
  /\ (node ∉ map phase_id PHASES ->
      forall phase, phase ∈ PHASES ->
        status_of (phases (chat t')) phase = status_of (phases (chat t)) phase)
  /\ AgentPipeline (phases (chat t'))
     = Some (map (fun phase => (phase, status_of (phases (chat t')) phase)) PHASES).
Proof.
  intros t'.
  change (phases (chat t')) with (<[node := phase_of status]> (phases (chat t))).
  split; [reflexivity|]. split; [apply lookup_insert_eq|].
  split; [intros other Hne; apply lookup_insert_ne; congruence|].
  do 4 (split; [reflexivity|]).
  split; [intros phase; apply status_of_insert|].
  split.
  - intros Hnode phase Hphase. rewrite status_of_insert.
    destruct (decide (phase_id phase = node)) as [<-|]; [|reflexivity].
    exfalso. apply Hnode. apply list_elem_of_fmap. exists phase.
    split; [reflexivity | exact Hphase].
  - unfold AgentPipeline. rewrite hasActivity_insert. reflexivity.
Qed.

Lemma agent_step_recorded_under_its_node_witness :
  let t' := on_event (js "a1") FLUSH_CHARS
              {| chat := Sample.streaming_state []; textBuffer := [] |}
              (ev_agent_step (js "copy_writing") step_running) in
  map (status_of (phases (chat t'))) PHASES
  = [phase_idle; phase_idle; phase_idle; phase_running; phase_idle].
Proof.
  intros t'.
  pose proof (agent_step_recorded_under_its_node (js "a1") FLUSH_CHARS
                {| chat := Sample.streaming_state []; textBuffer := [] |}
                (js "copy_writing") step_running) as (_ & _ & _ & _ & _ & _ & _ & H & _).
  fold t' in H. simpl map. rewrite !H. reflexivity.
Defined.

(** C2, as the claim has it, fails: for the node [query_crm], which the
    specification maps to the phase [audience_research], the status is not
    recorded under [audience_research], and the pipeline shows that phase
    idle while the projection holds [done] under [query_crm]. *)
Lemma agent_step_not_recorded_under_mapped_phase :
  let t' := on_event (js "a1") FLUSH_CHARS
              {| chat := Sample.streaming_state []; textBuffer := [] |}
              (ev_agent_step (js "query_crm") step_done) in
  phase_of_node (js "query_crm") = Some (js "audience_research")
  /\ phases (chat t') !! js "audience_research" = None
  /\ phases (chat t') !! js "query_crm" = Some phase_done
  /\ status_of (phases (chat t'))
       {| phase_id := js "audience_research"; label := js "CRM Query";
          icon := [55357; 56589]%N |} = phase_idle
  /\ ~ (forall assistantId k t node status phase,
          phase_of_node node = Some phase ->
          phases (chat (on_event assistantId k t (ev_agent_step node status))) !! phase
          = Some (phase_of status)).
Proof.
  intros t'.
  assert (H1 : phase_of_node (js "query_crm") = Some (js "audience_research"))
    by reflexivity.
  assert (H2 : phases (chat t') !! js "audience_research" = None).
  { subst t'. simpl. rewrite lookup_insert_ne by (vm_compute; discriminate).
    apply lookup_empty. }
  split; [exact H1|]. split; [exact H2|].
  split; [subst t'; simpl; apply lookup_insert_eq|].
  split; [unfold status_of; simpl phase_id; rewrite H2; reflexivity|].
  intros Hclaim.
  specialize (Hclaim (js "a1") FLUSH_CHARS
                {| chat := Sample.streaming_state []; textBuffer := [] |}
                (js "query_crm") step_done (js "audience_research") H1).
  fold t' in Hclaim. rewrite H2 in Hclaim. discriminate Hclaim.
Qed.

End Phases.

(** ** Rendering (C7, C8) *)

Section Rendering.

Import Message CampaignPreview.

(** C7.  An audience block whose count is 0 renders as [null], in the
    component without Markdown and in the one with it; one whose count is
    positive renders as the audience card.  The rendering has as many
    places as the message has blocks, and the reducer appends the block of
    an [audience_result] event whatever its count, leaving the phase
    projection as it is. *)
Theorem empty_audience_is_not_rendered
    (message : Api.Message) (i : nat) (data : AudienceResult) :
  contents message !! i = Some (kind_audience data) ->
  (count data = 0%Z ->
     MessageBubble message !! i = Some None
     /\ MessageBubble_markdown message !! i = Some None)
  /\ ((0 < count data)%Z ->
       MessageBubble message !! i = Some (Some (el_AudienceCard data))
       /\ MessageBubble_markdown message !! i = Some (Some (el_AudienceCard data)))
  /\ length (MessageBubble message) = length (contents message)
  /\ length (MessageBubble_markdown message) = length (contents message)
  /\ (forall assistantId k t,
        on_event assistantId k t (ev_audience_result data)
        = {| chat := setMessages
                       (update_assistant assistantId
                          (fun cs => commit_text (textBuffer t) cs ++ [kind_audience data]))
                       (chat t);
             textBuffer := [] |}
        /\ phases (chat (on_event assistantId k t (ev_audience_result data)))
           = phases (chat t)).
Proof.
  intros Hi.
  assert (Hrender : forall md,
    MessageBubble_with md message !! i
    = Some (if (count data =? 0)%Z then None else Some (el_AudienceCard data))).
  { intros md. unfold MessageBubble_with. rewrite list_lookup_fmap, Hi. reflexivity. }
  unfold MessageBubble, MessageBubble_markdown.
  split; [|split; [|split; [|split]]].
  - intros Hz. rewrite !Hrender, Hz. split; reflexivity.
  - intros Hpos. rewrite !Hrender.
    destruct (Z.eqb_spec (count data) 0) as [Hz|_]; [lia|]. split; reflexivity.
  - apply length_map.
  - apply length_map.
  - intros assistantId k t.
    rewrite (on_event_flushing assistantId k t (ev_audience_result data) eq_refl).
    split; reflexivity.
Qed.

(** C8.  The SMS tab shows the body of the draft as it is, whatever its
    length, with its length as the count; the length decides the colour
    class of the counter and nothing else.  The renderer hands the draft of
    a campaign block to the preview unchanged, and the reducer stores the
    draft of a [campaign_draft] event unchanged. *)
Theorem sms_preview_shows_whole_body (data : CampaignDraft) :
  CampaignPreview data tab_sms
  = pane_sms {| bubble := body (sms data);
                counter := length (body (sms data));
                counter_class := if 160 <? length (body (sms data))
                                 then js "text-red-400" else js "text-gray-600" |}
  /\ bubble (SMSPreview (sms data)) = body (sms data)
  /\ (160 < length (body (sms data))
      <-> counter_class (SMSPreview (sms data)) = js "text-red-400")
  /\ (length (body (sms data)) <= 160
      <-> counter_class (SMSPreview (sms data)) = js "text-gray-600")
  /\ (forall md isUser,
        render_content md isUser (kind_campaign data) = Some (el_CampaignPreview data))
  /\ (forall assistantId k t,
        on_event assistantId k t (ev_campaign_draft data)
        = {| chat := setMessages
                       (update_assistant assistantId
                          (fun cs => commit_text (textBuffer t) cs ++ [kind_campaign data]))
                       (chat t);
             textBuffer := [] |}).
Proof.
  split; [reflexivity|]. split; [reflexivity|].
  unfold SMSPreview. cbn [counter_class].
  split; [|split; [|split]].
  - destruct (Nat.ltb_spec 160 (length (body (sms data)))) as [H|H].
    + split; [reflexivity | intros _; exact H].
    + split; [lia | intros Hc; vm_compute in Hc; discriminate Hc].
  - destruct (Nat.ltb_spec 160 (length (body (sms data)))) as [H|H].
    + split; [lia | intros Hc; vm_compute in Hc; discriminate Hc].
    + split; [reflexivity | intros _; exact H].
  - reflexivity.
  - intros assistantId k t.
    apply (on_event_flushing assistantId k t (ev_campaign_draft data) eq_refl).
Qed.

End Rendering.

Lemma empty_audience_is_not_rendered_witness :
  Message.MessageBubble
    (Sample.assistant_message [kind_text (js "No match"); kind_audience (Sample.audience 0)])
    !! 1 = Some None
  /\ Message.MessageBubble (Sample.assistant_message [kind_audience (Sample.audience 12)])
       !! 0 = Some (Some (Message.el_AudienceCard (Sample.audience 12))).
Proof.
  pose proof (empty_audience_is_not_rendered
                (Sample.assistant_message
                   [kind_text (js "No match"); kind_audience (Sample.audience 0)])
                1 (Sample.audience 0) eq_refl) as (H0 & _).
  pose proof (empty_audience_is_not_rendered
                (Sample.assistant_message [kind_audience (Sample.audience 12)])
                0 (Sample.audience 12) eq_refl) as (_ & H1 & _).
  split.
  - exact (proj1 (H0 eq_refl)).
  - exact (proj1 (H1 eq_refl)).
Defined.

Lemma sms_preview_shows_whole_body_witness :
  CampaignPreview.bubble
    (CampaignPreview.SMSPreview (sms (Sample.draft (concat (repeat (js "0123456789") 17)))))
  = concat (repeat (js "0123456789") 17)
  /\ CampaignPreview.counter_class
       (CampaignPreview.SMSPreview (sms (Sample.draft (concat (repeat (js "0123456789") 17)))))
     = js "text-red-400".
Proof.
  pose proof (sms_preview_shows_whole_body
                (Sample.draft (concat (repeat (js "0123456789") 17))))
    as (_ & Hbody & Hover & _).
  split; [exact Hbody|]. apply Hover. vm_compute. lia.
Defined.

(** ** The guard and the history of [send] (C9, C10) *)

Section SendFacts.

Variable assistantId : jsstring.

Lemma texts_filter (cs : list MessageContent) :
  map text_field (List.filter is_text cs) = texts cs.
Proof.
  induction cs as [|c cs IH]; [reflexivity|].
  destruct c; simpl; rewrite ?IH; reflexivity.
Qed.

Lemma texts_structured (cs : list MessageContent) :
  Forall (fun c => is_text c = false) cs -> texts cs = [].
Proof.
  induction 1 as [|c cs Hc _ IH]; [reflexivity|].
  destruct c; try discriminate; exact IH.
Qed.

(** What [send] does once past its guard. *)
Lemma send_with_proceeds (k : nat) (network : list ChatMessage -> Stream)
    (userId text : jsstring) (st : ChatState) :
  falsy (trim text) || isStreaming st = false ->
  let userMessage :=
    {| id := userId; role := user; contents := [kind_text (trim text)] |} in
  let history := map history_entry (messages st ++ [userMessage]) in
  let st2 :=
    {| messages := (messages st ++ [userMessage])
                   ++ [ {| id := assistantId; role := assistant; contents := [] |} ];
       input := []; isStreaming := true; phases := ∅ |} in
  send_with assistantId k network userId text st
  = (setIsStreaming false
       (chat (consume assistantId k (network history) {| chat := st2; textBuffer := [] |})),
     Some history).
Proof. intros Hguard. unfold send_with. rewrite Hguard. reflexivity. Qed.

(** C10.  With a text that is empty or made of white space only, or while
    a stream is in progress, [send] returns at once: the state (messages,
    input, lock and phase projection) is the one it was called in and no
    request is made. *)
Theorem send_is_noop_when_blank_or_streaming
    (network : list ChatMessage -> Stream) (userId text : jsstring) (st : ChatState) :
  forallb is_space text = true \/ isStreaming st = true ->
  send assistantId network userId text st = (st, None).
Proof.
  intros H. unfold send, send_with. rewrite trim_falsy.
  destruct H as [-> | ->]; [reflexivity | rewrite orb_true_r; reflexivity].
Qed.

(** C9.  When [send] makes a request, the history it posts has one entry
    per message of the list, the new user message last.  Each entry has the
    role of its message, and as content the texts of the text blocks of the
    message joined by line feeds: the empty string when the message has
    structured blocks only. *)
Theorem history_holds_text_blocks_only
    (network : list ChatMessage -> Stream) (userId text : jsstring) (st : ChatState) :
  falsy (trim text) || isStreaming st = false ->
  let userMessage :=
    {| id := userId; role := user; contents := [kind_text (trim text)] |} in
  exists history,
    snd (send assistantId network userId text st) = Some history
    /\ length history = length (messages st ++ [userMessage])
    /\ (forall i m, (messages st ++ [userMessage]) !! i = Some m ->
          exists entry,
            history !! i = Some entry
            /\ cm_role entry = role m
            /\ cm_content entry = join [LF] (texts (contents m))
            /\ (Forall (fun c => is_text c = false) (contents m) ->
                cm_content entry = []))
    /\ history !! length (messages st)
       = Some {| cm_role := user; cm_content := trim text |}.
Proof.
  intros Hguard userMessage. unfold send.
  rewrite (send_with_proceeds FLUSH_CHARS network userId text st Hguard).
  fold userMessage. eexists. split; [reflexivity|].
  split; [apply length_map|]. split.
  - intros i m Hm. exists (history_entry m).
    rewrite list_lookup_fmap, Hm. split; [reflexivity|]. split; [reflexivity|].
    unfold history_entry. simpl. rewrite texts_filter. split; [reflexivity|].
    intros Hs. rewrite (texts_structured _ Hs). reflexivity.
  - rewrite list_lookup_fmap, lookup_app_r by lia.
    rewrite Nat.sub_diag. reflexivity.
Qed.

End SendFacts.

Lemma send_is_noop_when_blank_or_streaming_witness :
  send (js "a2") (fun _ => {| yielded := [ev_done]; raised := None |}) (js "u2")
    [32; 9; 10]%N Sample.empty_state
  = (Sample.empty_state, None)
  /\ send (js "a2") (fun _ => {| yielded := [ev_done]; raised := None |}) (js "u2")
       (js "Find fans") (Sample.streaming_state [])
     = (Sample.streaming_state [], None).
Proof.
  split.
  - apply send_is_noop_when_blank_or_streaming. left. reflexivity.
  - apply send_is_noop_when_blank_or_streaming. right. reflexivity.
Defined.

Lemma history_holds_text_blocks_only_witness :
  let st :=
    {| messages :=
         [ {| id := js "u1"; role := user; contents := [kind_text (js "Find jazz fans")] |};
           {| id := js "a1"; role := assistant;
              contents := [kind_audience (Sample.audience 12)] |} ];
       input := js "Draft it"; isStreaming := false; phases := ∅ |} in
  snd (send (js "a2") (fun _ => {| yielded := [ev_done]; raised := None |}) (js "u2")
         (js " Draft it ") st)
  = Some [ {| cm_role := user; cm_content := js "Find jazz fans" |};
           {| cm_role := assistant; cm_content := [] |};
           {| cm_role := user; cm_content := js "Draft it" |} ].
Proof.
  intros st.
  destruct (history_holds_text_blocks_only (js "a2")
              (fun _ => {| yielded := [ev_done]; raised := None |}) (js "u2")
              (js " Draft it ") st eq_refl) as (history & Hsent & _).
  rewrite Hsent. f_equal.
  vm_compute in Hsent. injection Hsent as <-. vm_compute. reflexivity.
Defined.

(** ** Failure paths (C6) *)

Section Failures.

Variable assistantId : jsstring.

Lemma reference_fields (events : list SSEEvent) (st : ChatState) :
  input (fold_left (reference_on_event assistantId) events st) = input st
  /\ isStreaming (fold_left (reference_on_event assistantId) events st) = isStreaming st
  /\ phases (fold_left (reference_on_event assistantId) events st)
     = fold_left record_phase events (phases st).
Proof.
  revert st. induction events as [|e events IH]; intros st; simpl; [auto|].
  destruct (IH (reference_on_event assistantId st e)) as (Hi & Hs & Hp).
  rewrite Hi, Hs, Hp. destruct e; auto.
Qed.



(** A turn of [send] whose stream ends after a terminal event. *)
Lemma send_with_completed (k : nat) (network : list ChatMessage -> Stream)
    (userId text : jsstring) (st : ChatState) (events : list SSEEvent) :
  falsy (trim text) || isStreaming st = false ->
  fresh assistantId (messages st) ->
  userId <> assistantId ->
  ends_with_terminal events = true ->
  let userMessage :=
    {| id := userId; role := user; contents := [kind_text (trim text)] |} in
  network (map history_entry (messages st ++ [userMessage]))
  = {| yielded := events; raised := None |} ->
  fst (send_with assistantId k network userId text st)
  = {| messages :=
         (messages st ++ [userMessage])
         ++ [ {| id := assistantId; role := assistant;
                 contents := transcript [] events |} ];
       input := [];
       isStreaming := false;
       phases := phase_projection events |}.
Proof.
  intros Hguard Hfresh Hne Hend userMessage Hnet.
  rewrite (send_with_proceeds assistantId k network userId text st Hguard).
  fold userMessage. rewrite Hnet. cbn [fst]. unfold consume. cbn [yielded raised].
  rewrite (fold_on_event_terminal assistantId k events _ Hend). cbn [chat].
  set (st2 := {| messages := _; input := []; isStreaming := true; phases := ∅ |}).
  destruct (reference_fields events st2) as (Hi & Hs & Hp).
  unfold setIsStreaming. rewrite Hi, Hp, reference_messages. subst st2.
  cbn [messages input phases].
  rewrite update_assistant_last; [reflexivity|].
  apply Forall_app. split; [exact Hfresh|]. constructor; [exact Hne | constructor].
Qed.

End Failures.

(** The scenario of the specification: one question, the events of a CRM
    query, the audience, three tokens and [done]. *)
Example scenario_jazz_fans :
  let network := fun _ : list ChatMessage =>
    {| yielded :=
         [ ev_agent_step (js "query_crm") step_running;
           ev_agent_step (js "query_crm") step_done;
           ev_audience_result (Sample.audience 12);
           ev_token (js "I found"); ev_token (js " 12"); ev_token (js " fans");
           ev_done ];
       raised := None |} in
  fst (send (js "a1") network (js "u1") (js "Find jazz fans in Chicago")
         Sample.empty_state)
  = {| messages :=
         [ {| id := js "u1"; role := user;
              contents := [kind_text (js "Find jazz fans in Chicago")] |};
           {| id := js "a1"; role := assistant;
              contents := [ kind_audience (Sample.audience 12);
                            kind_text (js "I found 12 fans") ] |} ];
       input := []; isStreaming := false;
       phases := {[ js "query_crm" := phase_done ]} |}.
Proof.
  intros network. unfold send.
  rewrite (send_with_completed (js "a1") FLUSH_CHARS network (js "u1")
             (js "Find jazz fans in Chicago") Sample.empty_state (yielded (network [])));
    try reflexivity.
  - constructor.
  - vm_compute. discriminate.
Qed.

(** * Further properties of the client *)

(** ** The loop, message by message *)

Section ContentsFacts.

Variable assistantId : jsstring.

Lemma batch_step_pending (k : nat) (cs cs' : list MessageContent) (pending : jsstring)
    (event : SSEEvent) :
  snd (batch_step k (cs, pending) event) = snd (batch_step k (cs', pending) event).
Proof.
  destruct event; simpl; try reflexivity.
  destruct (k <? length (pending ++ content)); reflexivity.
Qed.

Lemma fold_batch_step_pending (k : nat) (events : list SSEEvent)
    (cs cs' : list MessageContent) (pending : jsstring) :
  snd (fold_left (batch_step k) events (cs, pending))
  = snd (fold_left (batch_step k) events (cs', pending)).
Proof.
  revert cs cs' pending. induction events as [|e events IH]; intros cs cs' pending;
    [reflexivity|]. simpl.
  pose proof (batch_step_pending k cs cs' pending e) as Hp.
  destruct (batch_step k (cs, pending) e) as [c1 p1].
  destruct (batch_step k (cs', pending) e) as [c2 p2]. simpl in Hp. subst p2.
  apply IH.
Qed.

(** One event, as a step on the contents of the assistant message, on the
    phase projection and on the pending text. *)
Lemma on_event_batch_step (k : nat) (t : Turn) (event : SSEEvent) :
  on_event assistantId k t event
  = {| chat := setMessages
                 (update_assistant assistantId
                    (fun cs => fst (batch_step k (cs, textBuffer t) event)))
                 (setPhases (fun projection => record_phase projection event) (chat t));
       textBuffer := snd (batch_step k ([], textBuffer t) event) |}.
Proof.
  destruct (is_terminal event || is_structured event) eqn:Hflush.
  - rewrite on_event_flushing by exact Hflush.
    destruct event; try discriminate; reflexivity.
  - destruct t as [[msgs inp str ph] buf].
    destruct event; try discriminate; simpl.
    + unfold updatePhase, setPhases, setMessages. simpl.
      rewrite update_assistant_id. reflexivity.
    + destruct (k <? length (buf ++ content)); simpl.
      * rewrite flushText_messages. reflexivity.
      * unfold setPhases, setMessages. simpl.
        rewrite update_assistant_id. reflexivity.
Qed.

Lemma fold_on_event_batch_step (k : nat) (events : list SSEEvent) (t : Turn) :
  fold_left (on_event assistantId k) events t
  = {| chat := setMessages
                 (update_assistant assistantId
                    (fun cs => fst (fold_left (batch_step k) events (cs, textBuffer t))))
                 (setPhases (fun projection => fold_left record_phase events projection)
                    (chat t));
       textBuffer := snd (fold_left (batch_step k) events ([], textBuffer t)) |}.
Proof.
  revert t. induction events as [|e events IH]; intros t.
  - destruct t as [[msgs inp str ph] buf]. unfold setPhases, setMessages. simpl.
    rewrite update_assistant_id. reflexivity.
  - simpl. rewrite IH, on_event_batch_step. cbn [chat textBuffer].
    unfold setMessages, setPhases. cbn [messages input isStreaming phases].
    rewrite update_assistant_compose. f_equal.
    + f_equal. apply update_assistant_ext. intros cs.
      pose proof (batch_step_pending k cs [] (textBuffer t) e) as Hp.
      destruct (batch_step k (cs, textBuffer t) e) as [c1 p1].
      destruct (batch_step k ([], textBuffer t) e) as [c2 p2].
      simpl in Hp. subst p2. reflexivity.
    + destruct (batch_step k ([], textBuffer t) e) as [c2 p2]. simpl.
      apply fold_batch_step_pending.
Qed.

Lemma consume_batch_step (k : nat) (stream : Stream) (t : Turn) :
  consume assistantId k stream t
  = {| chat := setMessages
                 (update_assistant assistantId
                    (fun cs => fst (catch_step (raised stream)
                                      (fold_left (batch_step k) (yielded stream)
                                         (cs, textBuffer t)))))
                 (setPhases
                    (fun projection => fold_left record_phase (yielded stream) projection)
                    (chat t));
       textBuffer := snd (catch_step (raised stream)
                            (fold_left (batch_step k) (yielded stream)
                               ([], textBuffer t))) |}.
Proof.
  unfold consume. rewrite fold_on_event_batch_step.
  destruct (raised stream) as [err|]; [|reflexivity].
  rewrite appendContent_messages, flushText_buffer, flushText_messages.
  cbn [chat textBuffer catch_step fst snd].
  unfold setMessages, setPhases. cbn [messages input isStreaming phases].
  rewrite !update_assistant_compose. f_equal. f_equal.
  apply update_assistant_ext. intros cs.
  rewrite (fold_batch_step_pending k (yielded stream) [] cs (textBuffer t)).
  reflexivity.
Qed.

(** [send] past its guard, whatever the stream delivers. *)
Lemma send_with_contents (k : nat) (network : list ChatMessage -> Stream)
    (userId text : jsstring) (st : ChatState) :
  falsy (trim text) || isStreaming st = false ->
  let userMessage :=
    {| id := userId; role := user; contents := [kind_text (trim text)] |} in
  let stream := network (map history_entry (messages st ++ [userMessage])) in
  fst (send_with assistantId k network userId text st)
  = {| messages :=
         update_assistant assistantId (final_contents k stream)
           ((messages st ++ [userMessage])
            ++ [ {| id := assistantId; role := assistant; contents := [] |} ]);
       input := [];
       isStreaming := false;
       phases := phase_projection (yielded stream) |}.
Proof.
  intros Hguard userMessage stream.
  rewrite (send_with_proceeds assistantId k network userId text st Hguard).
  fold userMessage. fold stream. cbn [fst].
  rewrite consume_batch_step. reflexivity.
Qed.

Lemma send_with_contents_fresh (k : nat) (network : list ChatMessage -> Stream)
    (userId text : jsstring) (st : ChatState) :
  falsy (trim text) || isStreaming st = false ->
  fresh assistantId (messages st) ->
  userId <> assistantId ->
  let userMessage :=
    {| id := userId; role := user; contents := [kind_text (trim text)] |} in
  let stream := network (map history_entry (messages st ++ [userMessage])) in
  fst (send_with assistantId k network userId text st)
  = {| messages :=
         (messages st ++ [userMessage])
         ++ [ {| id := assistantId; role := assistant;
                 contents := final_contents k stream [] |} ];
       input := [];
       isStreaming := false;
       phases := phase_projection (yielded stream) |}.
Proof.
  intros Hguard Hfresh Hne userMessage stream.
  rewrite (send_with_contents k network userId text st Hguard).
  fold userMessage. fold stream.
  rewrite update_assistant_last; [reflexivity|].
  apply Forall_app. split; [exact Hfresh|]. constructor; [exact Hne | constructor].
Qed.

End ContentsFacts.

(** ** What a step keeps of the contents *)

Section BatchFacts.

Lemma texts_app (a b : list MessageContent) : texts (a ++ b) = texts a ++ texts b.
Proof.
  induction a as [|c a IH]; [reflexivity|].
  destruct c; simpl; rewrite IH; reflexivity.
Qed.

Lemma flush_into_cases (s : jsstring) (cs : list MessageContent) :
  (exists pre a, cs = pre ++ [kind_text a]
                 /\ flush_into s cs = pre ++ [kind_text (a ++ s)])
  \/ ((cs = [] \/ exists pre b, cs = pre ++ [b] /\ is_text b = false)
      /\ flush_into s cs = cs ++ [kind_text s]).
Proof.
  destruct cs as [|c cs'] using rev_ind.
  - right. split; [left; reflexivity | reflexivity].
  - destruct (is_text c) eqn:Hc.
    + destruct c; try discriminate. left. exists cs', text.
      split; [reflexivity | apply flush_into_text].
    + right. split; [right; exists cs', c; split; [reflexivity | exact Hc]|].
      rewrite flush_into_other by exact Hc. rewrite <- app_assoc. reflexivity.
Qed.

Lemma flush_into_nonempty (s : jsstring) (cs : list MessageContent) :
  s <> [] -> texts_nonempty cs -> texts_nonempty (flush_into s cs).
Proof.
  intros Hs Hcs. unfold texts_nonempty in *.
  destruct (flush_into_cases s cs) as [(pre & a & -> & ->) | [_ ->]].
  - apply Forall_app in Hcs as [Hpre _]. apply Forall_app. split; [exact Hpre|].
    constructor; [|constructor]. intros [= H]. apply app_eq_nil in H as [_ H].
    exact (Hs H).
  - apply Forall_app. split; [exact Hcs|]. constructor; [|constructor].
    intros [= H]. exact (Hs H).
Qed.

Lemma commit_text_nonempty (s : jsstring) (cs : list MessageContent) :
  texts_nonempty cs -> texts_nonempty (commit_text s cs).
Proof.
  destruct s as [|x s]; [auto|]. apply flush_into_nonempty. discriminate.
Qed.

Lemma block_of_nonempty (event : SSEEvent) : texts_nonempty (block_of event).
Proof.
  destruct event; simpl; try (repeat constructor; discriminate).
  destruct content; repeat constructor; discriminate.
Qed.

Lemma batch_step_nonempty (k : nat) (p : list MessageContent * jsstring)
    (event : SSEEvent) :
  texts_nonempty (fst p) -> texts_nonempty (fst (batch_step k p event)).
Proof.
  intros Hp.
  assert (Hflush : texts_nonempty (commit_text (snd p) (fst p) ++ block_of event)).
  { apply Forall_app. split; [apply commit_text_nonempty, Hp | apply block_of_nonempty]. }
  destruct event; simpl; try exact Hflush; [exact Hp|].
  destruct (k <? length (snd p ++ content)); simpl;
    [apply commit_text_nonempty, Hp | exact Hp].
Qed.

Lemma final_contents_nonempty (k : nat) (stream : Stream) (cs : list MessageContent) :
  texts_nonempty cs -> texts_nonempty (final_contents k stream cs).
Proof.
  intros Hcs. unfold final_contents.
  assert (H : forall events p, texts_nonempty (fst p) ->
                texts_nonempty (fst (fold_left (batch_step k) events p))).
  { induction events as [|e events IH]; intros p Hp; [exact Hp|].
    simpl. apply IH, batch_step_nonempty, Hp. }
  specialize (H (yielded stream) (cs, []) Hcs).
  destruct (raised stream) as [err|]; simpl; [|exact H].
  apply Forall_app. split; [apply commit_text_nonempty, H|].
  repeat constructor. discriminate.
Qed.

Lemma structured_part_app (a b : list MessageContent) :
  structured_part (a ++ b) = structured_part a ++ structured_part b.
Proof. apply List.filter_app. Qed.

Lemma structured_part_flush (s : jsstring) (cs : list MessageContent) :
  structured_part (flush_into s cs) = structured_part cs.
Proof.
  destruct (flush_into_cases s cs) as [(pre & a & -> & ->) | [_ ->]];
    rewrite !structured_part_app; simpl; rewrite ?app_nil_r; reflexivity.
Qed.

Lemma structured_part_commit (s : jsstring) (cs : list MessageContent) :
  structured_part (commit_text s cs) = structured_part cs.
Proof. destruct s; [reflexivity | apply structured_part_flush]. Qed.

Lemma batch_step_structured (k : nat) (p : list MessageContent * jsstring)
    (event : SSEEvent) :
  structured_part (fst (batch_step k p event))
  = structured_part (fst p) ++ structured_of event.
Proof.
  destruct event; simpl;
    rewrite ?structured_part_app, ?structured_part_commit, ?app_nil_r;
    try reflexivity.
  destruct (k <? length (snd p ++ content)); simpl;
    rewrite ?structured_part_commit; reflexivity.
Qed.

Lemma fold_batch_step_structured (k : nat) (events : list SSEEvent)
    (p : list MessageContent * jsstring) :
  structured_part (fst (fold_left (batch_step k) events p))
  = structured_part (fst p) ++ flat_map structured_of events.
Proof.
  revert p. induction events as [|e events IH]; intros p; simpl.
  - rewrite app_nil_r. reflexivity.
  - rewrite IH, batch_step_structured, <- app_assoc. reflexivity.
Qed.

Lemma texts_flush (s : jsstring) (cs : list MessageContent) :
  concat (texts (flush_into s cs)) = concat (texts cs) ++ s.
Proof.
  destruct (flush_into_cases s cs) as [(pre & a & -> & ->) | [_ ->]];
    rewrite !texts_app, !concat_app; simpl; rewrite ?app_nil_r, <- ?app_assoc;
    reflexivity.
Qed.

Lemma texts_commit (s : jsstring) (cs : list MessageContent) :
  concat (texts (commit_text s cs)) = concat (texts cs) ++ s.
Proof.
  destruct s as [|x s]; [simpl; rewrite app_nil_r; reflexivity|].
  apply texts_flush.
Qed.

Lemma texts_block_of (event : SSEEvent) :
  is_terminal event || is_structured event = true ->
  concat (texts (block_of event)) = event_text event.
Proof.
  destruct event; try discriminate; intros _; simpl; rewrite ?app_nil_r; reflexivity.
Qed.

(** The committed texts followed by the pending text grow by the text of
    the event. *)
Lemma batch_step_text (k : nat) (p : list MessageContent * jsstring) (event : SSEEvent) :
  concat (texts (fst (batch_step k p event))) ++ snd (batch_step k p event)
  = (concat (texts (fst p)) ++ snd p) ++ event_text event.
Proof.
  destruct (is_terminal event || is_structured event) eqn:Hflush.
  - assert (Hstep : batch_step k p event
                    = (commit_text (snd p) (fst p) ++ block_of event, []))
      by (destruct event; try discriminate; reflexivity).
    rewrite Hstep. simpl.
    rewrite texts_app, concat_app, texts_commit, texts_block_of by exact Hflush.
    rewrite app_nil_r. reflexivity.
  - destruct event; try discriminate; simpl.
    + rewrite app_nil_r. reflexivity.
    + destruct (k <? length (snd p ++ content)); simpl.
      * rewrite texts_commit, app_nil_r, app_assoc. reflexivity.
      * rewrite app_assoc. reflexivity.
Qed.

Lemma fold_batch_step_text (k : nat) (events : list SSEEvent)
    (p : list MessageContent * jsstring) :
  concat (texts (fst (fold_left (batch_step k) events p)))
  ++ snd (fold_left (batch_step k) events p)
  = (concat (texts (fst p)) ++ snd p) ++ concat (map event_text events).
Proof.
  revert p. induction events as [|e events IH]; intros p; simpl.
  - rewrite app_nil_r. reflexivity.
  - rewrite IH, batch_step_text, <- app_assoc. reflexivity.
Qed.

(** Tokens that keep the pending text within the threshold commit nothing. *)
Lemma fold_batch_step_below (k : nat) (fragments : list jsstring)
    (cs : list MessageContent) (pending : jsstring) :
  length (pending ++ concat fragments) <= k ->
  fold_left (batch_step k) (map ev_token fragments) (cs, pending)
  = (cs, pending ++ concat fragments).
Proof.
  revert pending. induction fragments as [|c fragments IH]; intros pending Hk; simpl.
  - rewrite app_nil_r. reflexivity.
  - simpl in Hk. rewrite app_assoc in Hk.
    assert (Hc : (k <? length (pending ++ c)) = false).
    { apply Nat.ltb_ge. rewrite length_app in Hk. lia. }
    rewrite Hc, IH by exact Hk. rewrite app_assoc. reflexivity.
Qed.

End BatchFacts.

(** ** More on the decoder *)

Section DecoderFacts.

Variable JSON_parse : jsstring -> option SSEEvent.

Lemma split_blank_no_blank_line (s : jsstring) :
  has_blank_line s = false -> split_blank s = [s].
Proof.
  induction s as [|c|s IH|c d s Hcd IH] using split_blank_ind; try reflexivity.
  - discriminate.
  - intros H. rewrite split_blank_char by exact Hcd.
    change (has_blank_line (c :: d :: s))
      with (((c =? LF) && (d =? LF))%N || has_blank_line (d :: s)) in H.
    rewrite Hcd in H. rewrite (IH H). reflexivity.
Qed.

Lemma trimStart_app_spaces (ws s : jsstring) :
  forallb is_space ws = true -> trimStart (ws ++ s) = trimStart s.
Proof.
  induction ws as [|c ws IH]; [reflexivity|]. simpl.
  intros [Hc Hws]%andb_prop. rewrite Hc. apply IH, Hws.
Qed.

Lemma trimEnd_app_spaces (s ws : jsstring) :
  forallb is_space ws = true -> trimEnd (s ++ ws) = trimEnd s.
Proof.
  intros Hws. unfold trimEnd. rewrite rev_app_distr.
  rewrite trimStart_app_spaces by (rewrite forallb_rev; exact Hws). reflexivity.
Qed.

Lemma trimStart_app_head (s r : jsstring) :
  trimStart s <> [] -> trimStart (s ++ r) = trimStart s ++ r.
Proof.
  induction s as [|c s IH]; simpl; [congruence|].
  destruct (is_space c); [exact IH | reflexivity].
Qed.

Lemma trim_app_spaces (ws1 s ws2 : jsstring) :
  forallb is_space ws1 = true -> forallb is_space ws2 = true ->
  trim (ws1 ++ s ++ ws2) = trim s.
Proof.
  intros H1 H2. unfold trim. rewrite trimStart_app_spaces by exact H1.
  destruct (trimStart s) as [|c r] eqn:Hs.
  - apply trimStart_nil_inv in Hs.
    rewrite trimStart_spaces; [reflexivity|].
    rewrite forallb_app, Hs, H2. reflexivity.
  - rewrite trimStart_app_head by (rewrite Hs; discriminate).
    rewrite Hs. apply trimEnd_app_spaces, H2.
Qed.

End DecoderFacts.

(** X1.  The events [streamChat] yields depend on the text received, not on
    how the reader cuts it into chunks: they are the events of the parts of
    the whole text, the part after the last blank line left out. *)
Theorem read_loop_chunking_irrelevant
    (JSON_parse : jsstring -> option SSEEvent) (chunks chunks' : list jsstring) :
  concat chunks = concat chunks' ->
  read_loop JSON_parse [] chunks = read_loop JSON_parse [] chunks'
  /\ read_loop JSON_parse [] chunks
     = flat_map (decode_part JSON_parse) (removelast (split_blank (concat chunks))).
Proof.
  intros H. rewrite !read_loop_chunks by reflexivity. simpl. rewrite H. split; reflexivity.
Qed.

Lemma read_loop_chunking_irrelevant_witness :
  let text := wire [Sample.frame_token_hi; Sample.frame_done] in
  read_loop Sample.parse [] (map (fun c => [c]) text)
  = read_loop Sample.parse [] [text].
Proof.
  intros text.
  apply (read_loop_chunking_irrelevant Sample.parse (map (fun c => [c]) text) [text]).
  vm_compute. reflexivity.
Defined.

(** X2.  Only the frames followed by a blank line are decoded: text after
    the last blank line is dropped when the reader is done, also when it is
    a valid frame.  When every complete frame is valid, the events yielded
    are the events of the frames, one for each, in the order of the wire. *)
Theorem unterminated_frame_is_not_decoded
    (JSON_parse : jsstring -> option SSEEvent)
    (frames : list jsstring) (tail : jsstring) (chunks : list jsstring) :
  Forall (fun f => is_frame f = true) frames ->
  has_blank_line tail = false ->
  concat chunks = wire frames ++ tail ->
  read_loop JSON_parse [] chunks = flat_map (decode_part JSON_parse) frames
  /\ forall events,
       Forall2 (fun f event =>
                  exists json, trim f = js "data: " ++ json
                               /\ JSON_parse json = Some event) frames events ->
       read_loop JSON_parse [] chunks = events.
Proof.
  intros Hframes Htail Hchunks.
  assert (H : read_loop JSON_parse [] chunks = flat_map (decode_part JSON_parse) frames).
  { rewrite read_loop_chunks by reflexivity. simpl. rewrite Hchunks.
    rewrite split_blank_wire by exact Hframes.
    rewrite (split_blank_no_blank_line tail Htail).
    rewrite removelast_last. reflexivity. }
  split; [exact H|]. intros events Hvalid. rewrite H. clear H Hframes Hchunks.
  induction Hvalid as [|f event frames events (json & Ht & Hj) _ IH]; [reflexivity|].
  simpl. rewrite (decode_part_valid JSON_parse f json event Ht Hj), IH. reflexivity.
Qed.

Lemma unterminated_frame_is_not_decoded_witness :
  read_loop Sample.parse []
    [wire [Sample.frame_token_hi]; Sample.frame_done]
  = [ev_token (js "Hi")].
Proof.
  destruct (unterminated_frame_is_not_decoded Sample.parse
              [Sample.frame_token_hi] Sample.frame_done
              [wire [Sample.frame_token_hi]; Sample.frame_done]) as [H _].
  - repeat constructor.
  - reflexivity.
  - vm_compute. reflexivity.
  - rewrite H. reflexivity.
Defined.

(** X3.  White space around a part, line feeds and carriage returns
    included, does not change what the part decodes to. *)
Theorem decode_part_ignores_surrounding_space
    (JSON_parse : jsstring -> option SSEEvent) (ws1 part ws2 : jsstring) :
  forallb is_space ws1 = true ->
  forallb is_space ws2 = true ->
  decode_part JSON_parse (ws1 ++ part ++ ws2) = decode_part JSON_parse part.
Proof.
  intros H1 H2. unfold decode_part. rewrite trim_app_spaces by assumption. reflexivity.
Qed.

Lemma decode_part_ignores_surrounding_space_witness :
  decode_part Sample.parse ([10; 32]%N ++ Sample.frame_done ++ [13]%N) = [ev_done].
Proof.
  rewrite (decode_part_ignores_surrounding_space Sample.parse
             [10; 32]%N Sample.frame_done [13]%N eq_refl eq_refl).
  reflexivity.
Defined.

(** ** More on [send] *)

Section SendMore.

Lemma update_assistant_Forall (assistantId : jsstring)
    (P : list MessageContent -> Prop)
    (f : list MessageContent -> list MessageContent) (msgs : list Message) :
  (forall cs, P cs -> P (f cs)) ->
  Forall (fun m => P (contents m)) msgs ->
  Forall (fun m => P (contents m)) (update_assistant assistantId f msgs).
Proof.
  intros Hf. induction 1 as [|m msgs Hm _ IH]; simpl; constructor; [|exact IH].
  destruct (decide (id m = assistantId)); [apply Hf, Hm | exact Hm].
Qed.

(** The committed contents with the pending text are the transcript of the
    reference reducer. *)
Lemma batch_step_view (k : nat) (p : list MessageContent * jsstring) (event : SSEEvent) :
  commit_text (snd (batch_step k p event)) (fst (batch_step k p event))
  = commit_event (commit_text (snd p) (fst p)) event.
Proof.
  destruct event; simpl; try reflexivity.
  - rewrite app_nil_r. reflexivity.
  - destruct (k <? length (snd p ++ content)); simpl; apply commit_text_app.
Qed.

Lemma fold_batch_step_view (k : nat) (events : list SSEEvent)
    (p : list MessageContent * jsstring) :
  commit_text (snd (fold_left (batch_step k) events p))
    (fst (fold_left (batch_step k) events p))
  = transcript (commit_text (snd p) (fst p)) events.
Proof.
  revert p. induction events as [|e events IH]; intros p; [reflexivity|].
  simpl. rewrite IH, batch_step_view. reflexivity.
Qed.

Lemma fold_batch_step_flushed (k : nat) (events : list SSEEvent)
    (cs : list MessageContent) :
  ends_flushed events = true ->
  fold_left (batch_step k) events (cs, []) = (transcript cs events, []).
Proof.
  intros Hend.
  assert (Hp : snd (fold_left (batch_step k) events (cs, [])) = []).
  { unfold ends_flushed in Hend.
    destruct events as [|e events _] using rev_ind; [reflexivity|].
    rewrite last_snoc in Hend. rewrite fold_left_app. simpl.
    destruct e; try discriminate; reflexivity. }
  pose proof (fold_batch_step_view k events (cs, [])) as Hv.
  destruct (fold_left (batch_step k) events (cs, [])) as [c1 p1].
  simpl in Hp, Hv. subst p1. simpl in Hv. rewrite Hv. reflexivity.
Qed.

Lemma record_phase_tokens (fragments : list jsstring)
    (projection : gmap jsstring PhaseStatus) :
  fold_left record_phase (map ev_token fragments) projection = projection.
Proof.
  revert projection. induction fragments as [|c fragments IH]; intros projection;
    [reflexivity | apply IH].
Qed.

(** The last status the events report for a node is the one recorded. *)
Lemma record_phase_lookup (events : list SSEEvent)
    (projection : gmap jsstring PhaseStatus) (node : jsstring) :
  fold_left record_phase events projection !! node
  = match last (node_statuses node events) with
    | Some status => Some status
    | None => projection !! node
    end.
Proof.
  induction events as [|e events IH] using rev_ind; [reflexivity|].
  rewrite fold_left_app. unfold node_statuses. rewrite flat_map_app. simpl.
  fold (node_statuses node events). rewrite app_nil_r.
  destruct e; simpl; rewrite ?app_nil_r; try exact IH.
  destruct (decide (node0 = node)) as [->|Hne].
  - rewrite last_snoc. apply lookup_insert_eq.
  - rewrite app_nil_r, lookup_insert_ne by exact Hne. exact IH.
Qed.

End SendMore.

(** X4.  When the response is not [ok], the body is not read: the turn ends
    with the assistant message holding one text block, the connection error
    with the status, the lock released and no phase recorded. *)
Theorem http_error_shows_connection_error
    (JSON_parse : jsstring -> option SSEEvent)
    (assistantId userId text : jsstring) (st : ChatState)
    (status : jsstring) (chunks : list jsstring) (read_error : option Thrown) :
  falsy (trim text) || isStreaming st = false ->
  fresh assistantId (messages st) ->
  userId <> assistantId ->
  fst (send assistantId
         (fun _ => streamChat JSON_parse (http_status false status chunks read_error))
         userId text st)
  = {| messages :=
         (messages st
          ++ [ {| id := userId; role := user; contents := [kind_text (trim text)] |} ])
         ++ [ {| id := assistantId; role := assistant;
                 contents :=
                   [kind_text (WARN ++ js "Connection error: "
                               ++ js "API error: " ++ status)] |} ];
       input := [];
       isStreaming := false;
       phases := ∅ |}.
Proof.
  intros Hguard Hfresh Hne. unfold send.
  rewrite (send_with_contents_fresh assistantId FLUSH_CHARS _ userId text st
             Hguard Hfresh Hne).
  reflexivity.
Qed.

Lemma http_error_shows_connection_error_witness :
  map contents
    (messages
       (fst (send (js "a1")
               (fun _ => streamChat Sample.parse
                           (http_status false (js "500") [wire [Sample.frame_done]] None))
               (js "u1") (js "Find fans") Sample.empty_state)))
  = [ [kind_text (js "Find fans")];
      [kind_text (WARN ++ js "Connection error: API error: 500")] ].
Proof.
  rewrite (http_error_shows_connection_error Sample.parse (js "a1") (js "u1")
             (js "Find fans") Sample.empty_state (js "500")
             [wire [Sample.frame_done]] None).
  - reflexivity.
  - reflexivity.
  - constructor.
  - vm_compute. discriminate.
Defined.

(** X5.  A call of [send] that makes a request adds two messages to the
    list and no more, whatever the stream delivers: the user message with
    the trimmed text and the assistant message.  With a new identifier for
    the assistant message, the messages already in the list are left as
    they were.  The list is then not empty, so the empty state is not shown
    again. *)
Theorem send_appends_two_messages
    (assistantId : jsstring) (network : list ChatMessage -> Stream)
    (userId text : jsstring) (st : ChatState) :
  falsy (trim text) || isStreaming st = false ->
  length (messages (fst (send assistantId network userId text st)))
  = length (messages st) + 2
  /\ ChatForm.shows_EmptyState (fst (send assistantId network userId text st)) = false
  /\ (fresh assistantId (messages st) -> userId <> assistantId ->
      exists reply,
        messages (fst (send assistantId network userId text st))
        = messages st
          ++ [ {| id := userId; role := user; contents := [kind_text (trim text)] |};
               {| id := assistantId; role := assistant; contents := reply |} ]).
Proof.
  intros Hguard. unfold send.
  assert (Hlen : length (messages (fst (send_with assistantId FLUSH_CHARS network
                                          userId text st)))
                 = length (messages st) + 2).
  { rewrite (send_with_contents assistantId FLUSH_CHARS network userId text st Hguard).
    cbn [messages]. unfold update_assistant. rewrite length_map, !length_app. simpl. lia. }
  split; [exact Hlen|]. split.
  - unfold ChatForm.shows_EmptyState. rewrite Hlen. apply Nat.eqb_neq. lia.
  - intros Hfresh Hne.
    rewrite (send_with_contents_fresh assistantId FLUSH_CHARS network userId text st
               Hguard Hfresh Hne).
    cbn [messages]. eexists. rewrite <- app_assoc. reflexivity.
Qed.

Lemma send_appends_two_messages_witness :
  length (messages
            (fst (send (js "a2")
                    (fun _ => {| yielded := [ev_token (js "Hello")];
                                 raised := Some thrown_other |})
                    (js "u2") (js "Draft it")
                    (setIsStreaming false (Sample.streaming_state [])))))
  = 4.
Proof.
  destruct (send_appends_two_messages (js "a2")
              (fun _ => {| yielded := [ev_token (js "Hello")];
                           raised := Some thrown_other |})
              (js "u2") (js "Draft it")
              (setIsStreaming false (Sample.streaming_state [])) eq_refl) as [H _].
  rewrite H. reflexivity.
Defined.

(** X6.  After a turn, the status recorded for a node is the last status
    the events of this turn reported for it, and none when they reported
    none: what the projection held before the turn is discarded. *)
Theorem phases_hold_last_status_of_turn
    (assistantId : jsstring) (network : list ChatMessage -> Stream)
    (userId text : jsstring) (st : ChatState) (node : jsstring) :
  falsy (trim text) || isStreaming st = false ->
  let userMessage :=
    {| id := userId; role := user; contents := [kind_text (trim text)] |} in
  let events := yielded (network (map history_entry (messages st ++ [userMessage]))) in
  phases (fst (send assistantId network userId text st)) !! node
  = last (node_statuses node events).
Proof.
  intros Hguard userMessage events. unfold send.
  rewrite (send_with_contents assistantId FLUSH_CHARS network userId text st Hguard).
  cbn [phases]. fold userMessage. fold events. unfold phase_projection.
  rewrite record_phase_lookup, lookup_empty.
  destruct (last (node_statuses node events)); reflexivity.
Qed.

Lemma phases_hold_last_status_of_turn_witness :
  let network := fun _ : list ChatMessage =>
    {| yielded := [ev_agent_step (js "scheduling") step_running;
                   ev_agent_step (js "scheduling") step_error; ev_done];
       raised := None |} in
  let st := setPhases (fun _ => {[ js "analyzing" := phase_done ]}) Sample.empty_state in
  phases (fst (send (js "a1") network (js "u1") (js "Schedule it") st)) !! js "scheduling"
  = Some phase_error
  /\ phases (fst (send (js "a1") network (js "u1") (js "Schedule it") st)) !! js "analyzing"
     = None.
Proof.
  intros network st. split.
  - rewrite (phases_hold_last_status_of_turn (js "a1") network (js "u1")
               (js "Schedule it") st (js "scheduling") eq_refl).
    reflexivity.
  - rewrite (phases_hold_last_status_of_turn (js "a1") network (js "u1")
               (js "Schedule it") st (js "analyzing") eq_refl).
    reflexivity.
Defined.

(** X7.  [send] never leaves an empty text block: when no message of the
    list has one, none has one after the call, whatever the text and the
    stream (tokens with empty content and identifiers met twice included). *)
Theorem send_creates_no_empty_text_block
    (assistantId : jsstring) (network : list ChatMessage -> Stream)
    (userId text : jsstring) (st : ChatState) :
  Forall (fun m => texts_nonempty (contents m)) (messages st) ->
  Forall (fun m => texts_nonempty (contents m))
    (messages (fst (send assistantId network userId text st))).
Proof.
  intros Hst. unfold send.
  destruct (falsy (trim text) || isStreaming st) eqn:Hguard.
  - unfold send_with. rewrite Hguard. exact Hst.
  - rewrite (send_with_contents assistantId FLUSH_CHARS network userId text st Hguard).
    cbn [messages].
    apply update_assistant_Forall; [intros cs; apply final_contents_nonempty|].
    apply Forall_app. split; [apply Forall_app; split; [exact Hst|]|].
    + constructor; [|constructor]. simpl. constructor; [|constructor].
      intros [= Ht]. apply orb_false_elim in Hguard as [Hf _].
      rewrite Ht in Hf. discriminate Hf.
    + repeat constructor.
Qed.

Lemma send_creates_no_empty_text_block_witness :
  Forall (fun m => texts_nonempty (contents m))
    (messages
       (fst (send (js "a1")
               (fun _ => {| yielded := [ev_token []; ev_audience_result (Sample.audience 3);
                                        ev_token []; ev_done];
                            raised := None |})
               (js "u1") (js "Find fans") Sample.empty_state))).
Proof.
  apply send_creates_no_empty_text_block. constructor.
Defined.

Section LoopInvariants.

Variable assistantId : jsstring.

(** X8.  Through any sequence of events, at any threshold, a message that
    carries the assistant identifier keeps its structured blocks, in their
    order, followed by the blocks of the structured events, in the order of
    the events; a message with another identifier is not changed. *)
Theorem structured_blocks_are_kept_in_order
    (k : nat) (events : list SSEEvent) (t : Turn) (i : nat) (m : Message) :
  messages (chat t) !! i = Some m ->
  exists m',
    messages (chat (fold_left (on_event assistantId k) events t)) !! i = Some m'
    /\ id m' = id m /\ role m' = role m
    /\ (id m = assistantId ->
        structured_part (contents m')
        = structured_part (contents m) ++ flat_map structured_of events)
    /\ (id m <> assistantId -> m' = m).
Proof.
  intros Hm. rewrite fold_on_event_batch_step. cbn [chat messages setMessages].
  rewrite update_assistant_lookup. cbn [setPhases messages]. rewrite Hm. simpl.
  destruct (decide (id m = assistantId)) as [Hid|Hid].
  - eexists. split; [reflexivity|]. split; [reflexivity|]. split; [reflexivity|].
    split; [|congruence]. intros _. simpl. apply fold_batch_step_structured.
  - exists m. repeat split; congruence.
Qed.

(** X9.  Through any sequence of events, at any threshold, the texts of the
    blocks of the assistant message followed by the pending text grow by
    the contents of the tokens and the error messages, in the order of the
    events: no text is lost, doubled or moved. *)
Theorem text_is_conserved
    (k : nat) (events : list SSEEvent) (t : Turn) (i : nat) (m : Message) :
  messages (chat t) !! i = Some m ->
  id m = assistantId ->
  exists m',
    messages (chat (fold_left (on_event assistantId k) events t)) !! i = Some m'
    /\ concat (texts (contents m'))
       ++ textBuffer (fold_left (on_event assistantId k) events t)
       = (concat (texts (contents m)) ++ textBuffer t)
         ++ concat (map event_text events).
Proof.
  intros Hm Hid. rewrite fold_on_event_batch_step. cbn [chat messages setMessages textBuffer].
  rewrite update_assistant_lookup. cbn [setPhases messages]. rewrite Hm. simpl.
  rewrite decide_True by exact Hid.
  eexists. split; [reflexivity|]. simpl.
  rewrite (fold_batch_step_pending k events [] (contents m) (textBuffer t)).
  apply (fold_batch_step_text k events (contents m, textBuffer t)).
Qed.

(** X10.  The pending text never grows beyond the threshold: when it is
    within the threshold before a sequence of events, it is so after. *)
Theorem pending_text_is_bounded (k : nat) (events : list SSEEvent) (t : Turn) :
  length (textBuffer t) <= k ->
  length (textBuffer (fold_left (on_event assistantId k) events t)) <= k.
Proof.
  revert t. induction events as [|e events IH]; intros t Ht; [exact Ht|].
  simpl. apply IH. rewrite on_event_batch_step. cbn [textBuffer].
  destruct e; simpl; try lia.
  destruct (Nat.ltb_spec k (length (textBuffer t ++ content))); simpl; lia.
Qed.

(** X16.  The call of [flushText] that the branches of the structured
    events and of [error] make before [appendContent] changes nothing, since
    [appendContent] flushes first; and flushing twice is flushing once. *)
Theorem flush_before_append_is_redundant (content : MessageContent) (t : Turn) :
  appendContent assistantId content (flushText assistantId t)
  = appendContent assistantId content t
  /\ flushText assistantId (flushText assistantId t) = flushText assistantId t
  /\ forall k event block,
       is_structured event = true \/ (exists message, event = ev_error message) ->
       block_of event = [block] ->
       on_event assistantId k t event = appendContent assistantId block t.
Proof.
  assert (H : forall c, appendContent assistantId c (flushText assistantId t)
                        = appendContent assistantId c t).
  { intros c. unfold appendContent. rewrite flushText_idem. reflexivity. }
  split; [apply H|]. split; [apply flushText_idem|].
  intros k event block Hev Hblock.
  destruct Hev as [Hev | [message ->]].
  - destruct event; try discriminate Hev; injection Hblock as <-; apply H.
  - injection Hblock as <-. apply H.
Qed.

(** X17.  While the events of a turn are consumed the lock stays set and
    the input stays as it is, so a call of [send] made in any state the loop
    passes through does nothing. *)
Theorem send_during_stream_is_noop
    (k : nat) (events : list SSEEvent) (t : Turn) :
  isStreaming (chat t) = true ->
  let t' := fold_left (on_event assistantId k) events t in
  isStreaming (chat t') = true
  /\ input (chat t') = input (chat t)
  /\ forall assistantId' network userId text,
       send assistantId' network userId text (chat t') = (chat t', None).
Proof.
  intros Hs t'.
  assert (Hs' : isStreaming (chat t') = true).
  { unfold t'. rewrite fold_on_event_batch_step. exact Hs. }
  split; [exact Hs'|]. split.
  - unfold t'. rewrite fold_on_event_batch_step. reflexivity.
  - intros assistantId' network userId text. unfold send, send_with.
    rewrite Hs', orb_true_r. reflexivity.
Qed.

End LoopInvariants.

Lemma structured_blocks_are_kept_in_order_witness :
  exists m',
    messages
      (chat (fold_left (on_event (js "a1") 2)
               [ev_token (js "Here"); ev_campaign_draft (Sample.draft (js "Hi"));
                ev_token (js "and"); ev_scheduled
                  {| campaign_id := js "c1"; sr_segment_id := js "seg_abc123";
                     event_name := js "Jazz"; audience_size := 12;
                     send_at := js "2025-04-14T10:00:00"; sr_status := js "scheduled" |}]
               {| chat := Sample.streaming_state [kind_audience (Sample.audience 12)];
                  textBuffer := [] |})) !! 1 = Some m'
    /\ structured_part (contents m')
       = [ kind_audience (Sample.audience 12); kind_campaign (Sample.draft (js "Hi"));
           kind_scheduled
             {| campaign_id := js "c1"; sr_segment_id := js "seg_abc123";
                event_name := js "Jazz"; audience_size := 12;
                send_at := js "2025-04-14T10:00:00"; sr_status := js "scheduled" |} ].
Proof.
  destruct (structured_blocks_are_kept_in_order (js "a1") 2
              [ev_token (js "Here"); ev_campaign_draft (Sample.draft (js "Hi"));
               ev_token (js "and"); ev_scheduled
                 {| campaign_id := js "c1"; sr_segment_id := js "seg_abc123";
                    event_name := js "Jazz"; audience_size := 12;
                    send_at := js "2025-04-14T10:00:00"; sr_status := js "scheduled" |}]
              {| chat := Sample.streaming_state [kind_audience (Sample.audience 12)];
                 textBuffer := [] |}
              1 (Sample.assistant_message [kind_audience (Sample.audience 12)]) eq_refl)
    as (m' & Hm' & _ & _ & Hs & _).
  exists m'. split; [exact Hm'|]. rewrite (Hs eq_refl). reflexivity.
Defined.

Lemma text_is_conserved_witness :
  exists m',
    messages
      (chat (fold_left (on_event (js "a1") 4)
               [ev_token (js "I fou"); ev_token (js "nd"); ev_error (js "late");
                ev_token (js " 12")]
               {| chat := Sample.streaming_state []; textBuffer := [] |})) !! 1 = Some m'
    /\ concat (texts (contents m'))
       ++ textBuffer (fold_left (on_event (js "a1") 4)
                        [ev_token (js "I fou"); ev_token (js "nd"); ev_error (js "late");
                         ev_token (js " 12")]
                        {| chat := Sample.streaming_state []; textBuffer := [] |})
       = js "I found" ++ WARN ++ js "late 12".
Proof.
  destruct (text_is_conserved (js "a1") 4
              [ev_token (js "I fou"); ev_token (js "nd"); ev_error (js "late");
               ev_token (js " 12")]
              {| chat := Sample.streaming_state []; textBuffer := [] |}
              1 (Sample.assistant_message []) eq_refl eq_refl) as (m' & Hm' & Ht).
  exists m'. split; [exact Hm'|]. rewrite Ht. reflexivity.
Defined.

Lemma pending_text_is_bounded_witness :
  length (textBuffer
            (fold_left (on_event (js "a1") FLUSH_CHARS)
               (repeat (ev_token (js "0123456789")) 7)
               {| chat := Sample.streaming_state []; textBuffer := [] |})) <= 50.
Proof.
  apply (pending_text_is_bounded (js "a1") FLUSH_CHARS). simpl. lia.
Defined.

Lemma send_during_stream_is_noop_witness :
  let t' := fold_left (on_event (js "a1") FLUSH_CHARS)
              [ev_agent_step (js "analyzing") step_running; ev_token (js "Hello")]
              {| chat := Sample.streaming_state []; textBuffer := [] |} in
  send (js "a2") (fun _ => {| yielded := [ev_done]; raised := None |}) (js "u2")
    (js "Again") (chat t')
  = (chat t', None).
Proof.
  intros t'.
  destruct (send_during_stream_is_noop (js "a1") FLUSH_CHARS
              [ev_agent_step (js "analyzing") step_running; ev_token (js "Hello")]
              {| chat := Sample.streaming_state []; textBuffer := [] |} eq_refl)
    as (_ & _ & H).
  apply H.
Defined.

(** X11.  Text that is pending when the stream ends without an exception is
    never committed.  When the events end with tokens that together, since
    the last structured or terminal event, hold no more than 50 code units,
    the turn ends with the transcript of the events before these tokens:
    their text is not in the message. *)
Theorem stream_end_drops_pending_text
    (assistantId : jsstring) (network : list ChatMessage -> Stream)
    (userId text : jsstring) (st : ChatState)
    (events : list SSEEvent) (fragments : list jsstring) :
  falsy (trim text) || isStreaming st = false ->
  fresh assistantId (messages st) ->
  userId <> assistantId ->
  ends_flushed events = true ->
  length (concat fragments) <= FLUSH_CHARS ->
  let userMessage :=
    {| id := userId; role := user; contents := [kind_text (trim text)] |} in
  network (map history_entry (messages st ++ [userMessage]))
  = {| yielded := events ++ map ev_token fragments; raised := None |} ->
  fst (send assistantId network userId text st)
  = {| messages :=
         (messages st ++ [userMessage])
         ++ [ {| id := assistantId; role := assistant;
                 contents := transcript [] events |} ];
       input := [];
       isStreaming := false;
       phases := phase_projection events |}.
Proof.
  intros Hguard Hfresh Hne Hend Hlen userMessage Hnet. unfold send.
  rewrite (send_with_contents_fresh assistantId FLUSH_CHARS network userId text st
             Hguard Hfresh Hne).
  fold userMessage. rewrite Hnet. unfold final_contents. cbn [yielded raised catch_step].
  rewrite fold_left_app, (fold_batch_step_flushed FLUSH_CHARS events [] Hend).
  rewrite fold_batch_step_below by exact Hlen. cbn [fst].
  unfold phase_projection. rewrite fold_left_app, record_phase_tokens. reflexivity.
Qed.

Lemma stream_end_drops_pending_text_witness :
  let network := fun _ : list ChatMessage =>
    {| yielded := [ev_audience_result (Sample.audience 12)]
                  ++ map ev_token [js "I found"; js " 12 fans"];
       raised := None |} in
  map contents
    (messages (fst (send (js "a1") network (js "u1") (js "Find fans") Sample.empty_state)))
  = [ [kind_text (js "Find fans")]; [kind_audience (Sample.audience 12)] ].
Proof.
  intros network.
  rewrite (stream_end_drops_pending_text (js "a1") network (js "u1") (js "Find fans")
             Sample.empty_state [ev_audience_result (Sample.audience 12)]
             [js "I found"; js " 12 fans"]).
  - reflexivity.
  - reflexivity.
  - constructor.
  - vm_compute. discriminate.
  - reflexivity.
  - vm_compute. lia.
  - reflexivity.
Defined.

(** ** The view *)

Section ViewFacts.

Import AgentPipeline ChatForm Message.

Lemma hasActivity_projection (events : list SSEEvent) :
  hasActivity (fold_left record_phase events ∅)
  = existsb is_agent_step events.
Proof.
  induction events as [|e events IH] using rev_ind; [reflexivity|].
  rewrite fold_left_app, existsb_app. simpl. rewrite orb_false_r.
  destruct e; simpl; rewrite ?orb_false_r; try exact IH.
  rewrite hasActivity_insert, orb_true_r. reflexivity.
Qed.

(** X12.  In a turn, which starts with the projection emptied, the pipeline
    is rendered as soon as an [agent_step] event has arrived, whatever its
    node, and not before. *)
Theorem pipeline_hidden_until_first_step
    (assistantId : jsstring) (k : nat) (events : list SSEEvent) (t : Turn) :
  phases (chat t) = ∅ ->
  (AgentPipeline (phases (chat (fold_left (on_event assistantId k) events t))) = None
   <-> existsb is_agent_step events = false)
  /\ (existsb is_agent_step events = true ->
      exists chips,
        AgentPipeline (phases (chat (fold_left (on_event assistantId k) events t)))
        = Some chips
        /\ map fst chips = PHASES).
Proof.
  intros Hempty. rewrite fold_on_event_batch_step. cbn [chat phases setMessages setPhases].
  rewrite Hempty. unfold AgentPipeline. rewrite hasActivity_projection.
  destruct (existsb is_agent_step events); simpl.
  - split; [split; discriminate|]. intros _. eexists. split; reflexivity.
  - split; [split; reflexivity | discriminate].
Qed.

(** X13.  The submit button is enabled exactly in the states in which
    submitting makes a request; in the others [handleSubmit] changes
    nothing. *)
Theorem submit_enabled_iff_request
    (assistantId : jsstring) (network : list ChatMessage -> Stream)
    (userId : jsstring) (st : ChatState) :
  (submit_disabled st = false
   <-> snd (handleSubmit assistantId network userId st) <> None)
  /\ (submit_disabled st = true
      -> handleSubmit assistantId network userId st = (st, None)).
Proof.
  unfold submit_disabled, handleSubmit, send, send_with.
  rewrite (orb_comm (isStreaming st)).
  destruct (falsy (trim (input st)) || isStreaming st); simpl.
  - split; [split; [discriminate | congruence] | reflexivity].
  - split; [split; [discriminate | reflexivity] | discriminate].
Qed.

(** X15.  The bubble leaves out the audience blocks whose count is 0 and
    no other block: every other block gives an element, so the elements
    rendered are as many as the blocks that are not such audiences. *)
Theorem only_empty_audiences_are_left_out
    (markdown : bool) (message : Api.Message) :
  (forall isUser c,
     render_content markdown isUser c = None <-> is_empty_audience c = true)
  /\ length (omap (fun x : option Element => x) (MessageBubble_with markdown message))
     = length (List.filter (fun c => negb (is_empty_audience c)) (contents message)).
Proof.
  assert (H : forall isUser c,
            render_content markdown isUser c = None <-> is_empty_audience c = true).
  { intros isUser c. destruct c; simpl; try (split; discriminate).
    destruct (count data =? 0)%Z; split; congruence. }
  split; [exact H|]. unfold MessageBubble_with.
  set (isUser := match role message with user => true | assistant => false end).
  induction (contents message) as [|c cs IH]; [reflexivity|]. simpl.
  destruct (render_content markdown isUser c) eqn:Hc; simpl.
  - destruct (is_empty_audience c) eqn:He.
    + pose proof (proj2 (H isUser c) He). congruence.
    + simpl. f_equal. exact IH.
  - rewrite (proj1 (H isUser c) Hc). simpl. exact IH.
Qed.

End ViewFacts.

Lemma pipeline_hidden_until_first_step_witness :
  AgentPipeline.AgentPipeline
    (phases (chat (fold_left (on_event (js "a1") FLUSH_CHARS)
                     [ev_token (js "Let me look"); ev_done]
                     {| chat := Sample.streaming_state []; textBuffer := [] |})))
  = None.
Proof.
  destruct (pipeline_hidden_until_first_step (js "a1") FLUSH_CHARS
              [ev_token (js "Let me look"); ev_done]
              {| chat := Sample.streaming_state []; textBuffer := [] |} eq_refl)
    as [[_ H] _].
  apply H. reflexivity.
Defined.

Lemma submit_enabled_iff_request_witness :
  ChatForm.handleSubmit (js "a1") (fun _ => {| yielded := [ev_done]; raised := None |})
    (js "u1") (setInput [32; 32]%N Sample.empty_state)
  = (setInput [32; 32]%N Sample.empty_state, None).
Proof.
  apply (submit_enabled_iff_request (js "a1")
           (fun _ => {| yielded := [ev_done]; raised := None |}) (js "u1")
           (setInput [32; 32]%N Sample.empty_state)).
  reflexivity.
Defined.

(** ** Turns in sequence *)

(** X14.  The history of the next request is the history of this request,
    then the entry of the assistant message this turn ended with (its texts
    joined by line feeds), then the entry of the new user message: with new
    identifiers, nothing sent before is sent differently. *)
Theorem history_extends_across_turns
    (assistantId assistantId' : jsstring)
    (network network' : list ChatMessage -> Stream)
    (userId userId' text text' : jsstring) (st : ChatState) :
  falsy (trim text) || isStreaming st = false ->
  fresh assistantId (messages st) ->
  userId <> assistantId ->
  forallb is_space text' = false ->
  exists history reply,
    snd (send assistantId network userId text st) = Some history
    /\ last (messages (fst (send assistantId network userId text st)))
       = Some {| id := assistantId; role := assistant; contents := reply |}
    /\ snd (send assistantId' network' userId' text'
              (fst (send assistantId network userId text st)))
       = Some (history
               ++ [ {| cm_role := assistant; cm_content := join [LF] (texts reply) |};
                    {| cm_role := user; cm_content := trim text' |} ]).
Proof.
  intros Hguard Hfresh Hne Htext'. unfold send.
  rewrite (send_with_proceeds assistantId FLUSH_CHARS network userId text st Hguard).
  cbn [snd].
  pose proof (send_with_contents_fresh assistantId FLUSH_CHARS network userId text st
                Hguard Hfresh Hne) as Hst.
  cbv zeta in Hst.
  rewrite (send_with_proceeds assistantId FLUSH_CHARS network userId text st Hguard)
    in Hst. cbn [fst] in Hst.
  set (st' := setIsStreaming false _) in *.
  eexists. eexists. split; [reflexivity|].
  rewrite Hst. cbn [messages]. split; [apply last_snoc|].
  rewrite send_with_proceeds by (rewrite trim_falsy, Htext'; reflexivity).
  cbn [fst snd messages].
  set (sent := messages st ++ [ {| id := userId; role := user;
                                   contents := [kind_text (trim text)] |} ]).
  set (reply := final_contents FLUSH_CHARS (network (map history_entry sent)) []).
  rewrite (map_app _ (sent ++ [_]) [_]), (map_app _ sent [_]).
  rewrite <- app_assoc. do 2 f_equal. cbn [map app].
  unfold history_entry. cbn [role contents]. rewrite texts_filter. reflexivity.
Qed.

Lemma history_extends_across_turns_witness :
  let network := fun _ : list ChatMessage =>
    {| yielded := [ev_audience_result (Sample.audience 12); ev_token (js "12 fans");
                   ev_error (js "timeout"); ev_done];
       raised := None |} in
  snd (send (js "a2") network (js "u2") (js "Draft it")
         (fst (send (js "a1") network (js "u1") (js "Find fans") Sample.empty_state)))
  = Some [ {| cm_role := user; cm_content := js "Find fans" |};
           {| cm_role := assistant;
              cm_content := js "12 fans" ++ [LF] ++ WARN ++ js "timeout" |};
           {| cm_role := user; cm_content := js "Draft it" |} ].
Proof.
  intros network.
  destruct (history_extends_across_turns (js "a1") (js "a2") network network
              (js "u1") (js "u2") (js "Find fans") (js "Draft it") Sample.empty_state)
    as (history & reply & H1 & H2 & H3).
  - reflexivity.
  - constructor.
  - vm_compute. discriminate.
  - reflexivity.
  - rewrite H3. vm_compute in H1, H2. injection H1 as <-. injection H2 as <-.
    reflexivity.
Defined.

Lemma transcript_tokens (fragments : list jsstring) (cs : list MessageContent) :
  transcript cs (map ev_token fragments) = commit_text (concat fragments) cs.
Proof.
  revert cs. induction fragments as [|c fragments IH]; intros cs; [reflexivity|].
  unfold transcript in *. simpl. rewrite IH. symmetry. apply commit_text_app.
Qed.

(** X18.  An [error] event does not end the loop: tokens that follow it are
    added to the text block of the error, and no block is added for them. *)
Theorem text_after_error_joins_error_block
    (assistantId : jsstring) (k : nat) (st : ChatState)
    (message : jsstring) (fragments : list jsstring) :
  fold_left (on_event assistantId k)
    (ev_error message :: map ev_token fragments ++ [ev_done])
    {| chat := st; textBuffer := [] |}
  = {| chat := setMessages
                 (update_assistant assistantId
                    (fun cs => cs ++ [kind_text ((WARN ++ message) ++ concat fragments)]))
                 st;
       textBuffer := [] |}.
Proof.
  rewrite fold_on_event_batch_step. cbn [chat textBuffer].
  assert (Hend : ends_flushed (ev_error message :: map ev_token fragments ++ [ev_done])
                 = true).
  { unfold ends_flushed.
    change (ev_error message :: map ev_token fragments ++ [ev_done])
      with ((ev_error message :: map ev_token fragments) ++ [ev_done]).
    rewrite last_snoc. reflexivity. }
  rewrite (fold_batch_step_flushed k _ [] Hend). cbn [snd]. f_equal.
  destruct st as [msgs inp str ph]. unfold setMessages, setPhases.
  cbn [messages input isStreaming phases]. f_equal.
  - apply update_assistant_ext. intros cs.
    rewrite (fold_batch_step_flushed k _ cs Hend). cbn [fst].
    change (transcript cs (ev_error message :: map ev_token fragments ++ [ev_done]))
      with (fold_left commit_event (map ev_token fragments ++ [ev_done])
              (cs ++ [kind_text (WARN ++ message)])).
    rewrite fold_left_app.
    change (fold_left commit_event (map ev_token fragments)
              (cs ++ [kind_text (WARN ++ message)]))
      with (transcript (cs ++ [kind_text (WARN ++ message)]) (map ev_token fragments)).
    rewrite transcript_tokens. cbn [fold_left commit_event block_of].
    rewrite app_nil_r.
    destruct (concat fragments) as [|x s] eqn:Hs.
    + cbn [commit_text]. rewrite app_nil_r. reflexivity.
    + cbn [commit_text]. apply flush_into_text.
  - change (fold_left record_phase
              (ev_error message :: map ev_token fragments ++ [ev_done]) ph)
      with (fold_left record_phase (map ev_token fragments ++ [ev_done]) ph).
    rewrite fold_left_app. cbn [fold_left record_phase]. apply record_phase_tokens.
Qed.

(** ** Failure paths, to the end of the turn (C6) *)

Section ErrorBlockFacts.





End ErrorBlockFacts.

Section FailuresVisible.

Import Message.


End FailuresVisible.

